(** * A shallow embedding of [juicebox_mitm.py] (the UDP relay of
    juicepassproxy) and of its wire-message codec.

    The relay is written in Python with asyncio.  It is modelled here as a
    state-and-exception monad over an explicit [world]:
    - the socket ([self._dgram]) is a flag saying whether a socket is held;
    - the fault record ([self._error_timestamp_list], [self._error_count]);
    - the learned device address ([self._juicebox_addr]);
    - the shared [asyncio.Lock] ([self._sending_lock]);
    - the environment: the clock read by [time.time()] (milliseconds) and
      the outcomes of the socket operations, given as input streams;
    - an effect log of what the relay does to the outside world (binds,
      transmissions, sleeps, transform calls, recorded faults).
    Python exceptions are an inductive type with the subclass tests the
    [except] clauses perform. *)

From Stdlib Require Import ZArith List String Ascii Bool Lia Arith Sorted.
Import ListNotations.
Open Scope Z_scope.

(** ** Python values *)

(** [tuple[str, int]] *)
Record addr := mkAddr { host : string; port : Z }.

Definition addr_eqb (a b : addr) : bool :=
  String.eqb (host a) (host b) && Z.eqb (port a) (port b).

(** The payload handed to the transform callbacks: the received bytes, or the
    diagnostic string built by the handler after a failed forward
    (["JuiceboxMITM_OSERROR|<direction>|<addr>|<errno name>|<error>"]). *)
Inductive payload :=
| Data (b : string)
| Diag (direction : string) (a : addr) (code : string).

(** Messages of the [ChildProcessError]s raised by the relay. *)
Inductive fatal_msg :=
| UnableToStart                           (* "Unable to start MITM UDP Server." *)
| UnableToSend                            (* "Unable to send data." *)
| TooManyErrors (count lookback : Z).     (* "More than {count} errors in the last {lookback} min." *)

Inductive exn :=
| ChildProcessError (m : fatal_msg)  (* builtin, subclass of OSError, errno None *)
| TimeoutError                       (* builtin, subclass of OSError, errno None *)
| OSError (errno : Z)                (* an OSError carrying an errno *)
| TransportClosed                    (* asyncio_dgram.TransportClosed, an Exception *)
| KeyError                           (* raised by errno.errorcode[...] *)
| AttributeError                     (* [None.send(...)] *)
| TypeError                          (* [create_task(None)] *)
| CancelledError.                    (* asyncio.CancelledError, a BaseException *)

(** [isinstance(e, OSError)] *)
Definition is_oserror (e : exn) : bool :=
  match e with
  | ChildProcessError _ | TimeoutError | OSError _ => true
  | _ => false
  end.

(** [e.errno] *)
Definition errno_of (e : exn) : option Z :=
  match e with
  | OSError n => Some n
  | _ => None
  end.

(** ** Environment and effects *)

(** Outcomes of the operations that wait on the outside world.  [EExpire]
    is the expiry of the enclosing [asyncio.timeout(HANDLER_TIMEOUT)]
    arriving at the await point that reads it. *)
Inductive event :=
| EBindOk | EBindErr (errno : Z)
| ERecv (data : string) (from : addr) | ERecvClosed | ERecvTimeout
| ESendOk | ESendClosed | ESendTimeout | ESendErr (errno : Z)
| EExpire.

Inductive effect :=
| OBind (holding other : bool)    (* [asyncio_dgram.bind]; whether this task holds the lock,
                                     whether another task holds it *)
| OSend (p : payload) (to : addr) (holding : bool)  (* [self._dgram.send(data, to_addr)] *)
| OSleep (ms : Z)                 (* [asyncio.sleep] *)
| OLocal (p : payload)            (* [self._local_mitm_handler(p)] *)
| ORemote (p : payload)           (* [self._remote_mitm_handler(p)] *)
| OFault (at_ms count : Z).       (* [self._add_error()] and the count it set *)

Record world := mkWorld {
  dgram : bool;                    (* [self._dgram is not None] *)
  juicebox_addr : option addr;     (* [self._juicebox_addr] *)
  error_count : Z;                 (* [self._error_count] *)
  error_timestamps : list Z;       (* [self._error_timestamp_list] *)
  in_handler : bool;               (* running inside the outermost [asyncio.timeout(HANDLER_TIMEOUT)] *)
  holding : bool;                  (* this task holds [self._sending_lock] *)
  lock_other : bool;               (* another task holds [self._sending_lock] *)
  clock : list Z;                  (* successive readings of [time.time()], in ms *)
  env : list event;                (* successive outcomes of the awaited operations *)
  out : list effect                (* effects, oldest first *)
}.

(** Record updates. *)
Definition set_dgram (b : bool) (w : world) : world :=
  mkWorld b (juicebox_addr w) (error_count w) (error_timestamps w) (in_handler w)
    (holding w) (lock_other w) (clock w) (env w) (out w).
Definition set_juicebox (a : option addr) (w : world) : world :=
  mkWorld (dgram w) a (error_count w) (error_timestamps w) (in_handler w)
    (holding w) (lock_other w) (clock w) (env w) (out w).
Definition set_errors (ts : list Z) (c : Z) (w : world) : world :=
  mkWorld (dgram w) (juicebox_addr w) c ts (in_handler w)
    (holding w) (lock_other w) (clock w) (env w) (out w).
Definition set_in_handler (b : bool) (w : world) : world :=
  mkWorld (dgram w) (juicebox_addr w) (error_count w) (error_timestamps w) b
    (holding w) (lock_other w) (clock w) (env w) (out w).
Definition set_lock (h o : bool) (w : world) : world :=
  mkWorld (dgram w) (juicebox_addr w) (error_count w) (error_timestamps w)
    (in_handler w) h o (clock w) (env w) (out w).
Definition set_clock (c : list Z) (w : world) : world :=
  mkWorld (dgram w) (juicebox_addr w) (error_count w) (error_timestamps w)
    (in_handler w) (holding w) (lock_other w) c (env w) (out w).
Definition set_env (e : list event) (w : world) : world :=
  mkWorld (dgram w) (juicebox_addr w) (error_count w) (error_timestamps w)
    (in_handler w) (holding w) (lock_other w) (clock w) e (out w).
Definition emit (e : effect) (w : world) : world :=
  mkWorld (dgram w) (juicebox_addr w) (error_count w) (error_timestamps w)
    (in_handler w) (holding w) (lock_other w) (clock w) (env w) (out w ++ [e]).

(** ** The monad *)

(** [Stuck]: the environment streams ran out, or the fuel bounding the
    unbounded [while] loop of [_mitm_loop] did. *)
Inductive result (A : Type) :=
| Ok (a : A)
| Exc (e : exn)
| Stuck.
Arguments Ok {A} a.
Arguments Exc {A} e.
Arguments Stuck {A}.

Definition M (A : Type) := world -> result A * world.

Definition ret {A} (a : A) : M A := fun w => (Ok a, w).
Definition bind {A B} (m : M A) (k : A -> M B) : M B :=
  fun w => match m w with
           | (Ok a, w') => k a w'
           | (Exc e, w') => (Exc e, w')
           | (Stuck, w') => (Stuck, w')
           end.
Definition raise {A} (e : exn) : M A := fun w => (Exc e, w).
Definition stuck {A} : M A := fun w => (Stuck, w).
Definition get : M world := fun w => (Ok w, w).
Definition modify (f : world -> world) : M unit := fun w => (Ok tt, f w).

(** [try: m except <h>]: [h e = Some k] when an [except] clause matches [e]. *)
Definition catch {A} (m : M A) (h : exn -> option (M A)) : M A :=
  fun w => match m w with
           | (Exc e, w') => match h e with Some k => k w' | None => (Exc e, w') end
           | r => r
           end.

Notation "x <- m ;; k" := (bind m (fun x => k)) (at level 61, m at next level, right associativity).
Notation "m ;; k" := (bind m (fun _ => k)) (at level 61, right associativity).

(** [time.time()] *)
Definition now : M Z :=
  fun w => match clock w with
           | t :: c => (Ok t, set_clock c w)
           | [] => (Stuck, w)
           end.

(** The next outcome the environment gives to an awaited operation. *)
Definition next_event : M event :=
  fun w => match env w with
           | e :: es => (Ok e, set_env es w)
           | [] => (Stuck, w)
           end.

(** An await point: inside a handler dispatch, the handler timeout may
    expire here, which cancels the task.  (Nested handler dispatches start
    later with the same 10 s budget, so the outermost one expires first.) *)
Definition await_point : M unit :=
  fun w => match env w with
           | EExpire :: es =>
               if in_handler w then (Exc CancelledError, set_env es w) else (Stuck, w)
           | _ => (Ok tt, w)
           end.

(** An awaited operation whose outcome the environment decides. *)
Definition wait_event : M event :=
  await_point ;; next_event.

(** [await asyncio.sleep(ms / 1000)] *)
Definition sleep (ms : Z) : M unit :=
  await_point ;; modify (emit (OSleep ms)).

(** ** Configuration *)

Record config := mkConfig {
  jpp_addr : addr;
  enelx_addr : addr;
  ignore_remote : bool;
  local_mitm_handler : payload -> payload;
  remote_mitm_handler : payload -> payload;
  (** [errno.errorcode], a dict from errno values to names *)
  errorcode : Z -> option string;
  (** constants imported from [const] *)
  MAX_CONNECT_ATTEMPT : Z;
  MAX_ERROR_COUNT : Z;
  ERROR_LOOKBACK_MIN : Z
}.

(** Constants of [juicebox_mitm.py] (durations in ms). *)
Definition HANDLER_TIMEOUT := 10000.
Definition RECV_TIMEOUT := 120000.
Definition SEND_DATA_TIMEOUT := 10000.
Definition SEND_DATA_RETRIES := 3.

(** ** [class JuiceboxMITM] *)

Section Relay.
Context (cfg : config).

(** [async def _add_error(self)] *)
Definition add_error : M unit :=
  t <- now ;;
  w <- get ;;
  let appended := error_timestamps w ++ [t] in
  modify (set_errors appended (error_count w)) ;;
  t' <- now ;;
  let time_cutoff := t' - ERROR_LOOKBACK_MIN cfg * 60 * 1000 in
  let temp_list := filter (fun el => time_cutoff <? el) appended in
  let c := Z.of_nat (List.length temp_list) in
  modify (fun w => emit (OFault t c) (set_errors temp_list c w)).

(** [self._sending_lock.locked()] *)
Definition locked : M bool :=
  w <- get ;; ret (holding w || lock_other w).

(** [async with self._sending_lock: m]: waiting for a lock held by another
    task is an await point; the lock is released however [m] ends. *)
Definition with_lock {A} (m : M A) : M A :=
  w <- get ;;
  (if lock_other w then await_point else ret tt) ;;
  modify (set_lock true false) ;;
  fun w => let (r, w') := m w in (r, set_lock false (lock_other w') w').

(** [self._dgram = await asyncio_dgram.bind(self._jpp_addr)] *)
Definition dgram_bind : M unit :=
  ev <- wait_event ;;
  w <- get ;;
  match ev with
  | EBindOk => modify (fun w => set_dgram true (emit (OBind (holding w) (lock_other w)) w))
  | EBindErr n => modify (emit (OBind (holding w) (lock_other w))) ;; raise (OSError n)
  | _ => stuck
  end.

(** [await self._dgram.send(data, to_addr)]; [ESendTimeout] is the expiry of
    the per-attempt [asyncio.timeout(SEND_DATA_TIMEOUT)] around it. *)
Definition dgram_send (data : payload) (to_addr : addr) : M unit :=
  w <- get ;;
  if negb (dgram w) then raise AttributeError else
  ev <- wait_event ;;
  match ev with
  | ESendOk => modify (emit (OSend data to_addr (holding w)))
  | ESendClosed => modify (emit (OSend data to_addr (holding w))) ;; raise TransportClosed
  | ESendTimeout => raise TimeoutError
  | ESendErr n => modify (emit (OSend data to_addr (holding w))) ;; raise (OSError n)
  | _ => stuck
  end.

(** [data, remote_addr = await self._dgram.recv()] under
    [asyncio.timeout(RECV_TIMEOUT)] *)
Definition dgram_recv : M (string * addr) :=
  ev <- wait_event ;;
  match ev with
  | ERecv d a => ret (d, a)
  | ERecvClosed => raise TransportClosed
  | ERecvTimeout => raise TimeoutError
  | _ => stuck
  end.

(** [await self._local_mitm_handler(p)] and [await self._remote_mitm_handler(p)] *)
Definition call_local (p : payload) : M payload :=
  modify (emit (OLocal p)) ;; await_point ;; ret (local_mitm_handler cfg p).
Definition call_remote (p : payload) : M payload :=
  modify (emit (ORemote p)) ;; await_point ;; ret (remote_mitm_handler cfg p).

(** The bind of [_connect]: under the lock, unless the lock is already held. *)
Definition connect_bind : M unit :=
  l <- locked ;; if l then dgram_bind else with_lock dgram_bind.

(** The [while] loop of [_connect].  [connect_attempt] starts at 1 and the
    fuel at [MAX_CONNECT_ATTEMPT], so the fuel runs out exactly when
    [connect_attempt <= MAX_CONNECT_ATTEMPT] becomes false. *)
Fixpoint connect_while (fuel : nat) (connect_attempt : Z) : M unit :=
  match fuel with
  | O => ret tt
  | S fuel' =>
      w <- get ;;
      if negb (dgram w) && (connect_attempt <=? MAX_CONNECT_ATTEMPT cfg)
         && (error_count w <? MAX_ERROR_COUNT cfg)
      then
        catch connect_bind
              (fun e => if is_oserror e
                        then Some (add_error ;; modify (set_dgram false))
                        else None) ;;
        sleep 5000 ;;
        connect_while fuel' (connect_attempt + 1)
      else ret tt
  end.

(** [async def _connect(self)], given the receive loop it starts.
    [self._mitm_loop_task] is only ever assigned the value of
    [await self._mitm_loop()], that is [None], so the test
    [self._mitm_loop_task is None] always holds: the loop is awaited in
    place, and should it return, [create_task(None)] raises [TypeError]. *)
Definition connect_with (mitm_loop : M unit) : M unit :=
  connect_while (Z.to_nat (MAX_CONNECT_ATTEMPT cfg)) 1 ;;
  w <- get ;;
  if negb (dgram w) then raise (ChildProcessError UnableToStart) else
  mitm_loop ;;
  raise TypeError.

(** One attempt of [send_data] inside its [asyncio.timeout] and the lock;
    returns the new value of [sent]. *)
Definition send_attempt (data : payload) (to_addr : addr) : M bool :=
  catch (with_lock
           (catch (dgram_send data to_addr ;; ret true)
                  (fun e => match e with
                            | TransportClosed =>
                                Some (add_error ;; modify (set_dgram false) ;; ret false)
                            | _ => None
                            end)))
        (fun e => match e with
                  | TimeoutError => Some (add_error ;; ret false)
                  | _ => None
                  end).

(** The [while] loop of [send_data]; the fuel is [SEND_DATA_RETRIES] and
    runs out exactly when [send_attempt <= SEND_DATA_RETRIES] becomes false. *)
Fixpoint send_while (connect : M unit) (data : payload) (to_addr : addr)
    (blocking_time : Z) (fuel : nat) (sent : bool) (attempt : Z) : M bool :=
  match fuel with
  | O => ret sent
  | S fuel' =>
      if negb sent && (attempt <=? SEND_DATA_RETRIES) then
        w <- get ;;
        (if negb (dgram w) then connect else ret tt) ;;
        s <- send_attempt data to_addr ;;
        sleep (Z.max blocking_time 100) ;;
        send_while connect data to_addr blocking_time fuel' s (attempt + 1)
      else ret sent
  end.

(** [async def send_data(self, data, to_addr, blocking_time=0.1)], given the
    [_connect] it calls. *)
Definition send_data_with (connect : M unit) (data : payload) (to_addr : addr)
    (blocking_time : Z) : M unit :=
  sent <- send_while connect data to_addr blocking_time
            (Z.to_nat SEND_DATA_RETRIES) false 1 ;;
  if negb sent then raise (ChildProcessError UnableToSend) else ret tt.

(** [errno.errorcode[e.errno]] *)
Definition errorcode_of (e : exn) : M string :=
  match errno_of e with
  | Some n => match errorcode cfg n with Some s => ret s | None => raise KeyError end
  | None => raise KeyError
  end.

(** The [except OSError as e] clause of a forward in [_main_mitm_handler]:
    the warning formats [errno.errorcode[e.errno]], then the diagnostic naming
    the destination (as read when the clause runs) goes to the local
    transform and a fault is recorded. *)
Definition on_forward_error (direction : string) (dest : M addr) (e : exn)
    : option (M unit) :=
  if is_oserror e then
    Some (code <- errorcode_of e ;;
          a <- dest ;;
          call_local (Diag direction a code) ;;
          add_error)
  else None.

(** [self._juicebox_addr] read when it is known to be set. *)
Definition read_juicebox (default : addr) : M addr :=
  w <- get ;; ret (match juicebox_addr w with Some j => j | None => default end).

(** [async def _main_mitm_handler(self, data, from_addr)], given the
    [send_data] it calls. *)
Definition main_mitm_handler_with (send_data : payload -> addr -> Z -> M unit)
    (data : option payload) (from_addr : option addr) : M unit :=
  match data, from_addr with
  | Some d, Some a =>
      (if negb (String.eqb (host a) (host (enelx_addr cfg)))
       then modify (set_juicebox (Some a)) else ret tt) ;;
      w <- get ;;
      match juicebox_addr w with
      | Some j =>
          if addr_eqb a j then
            d' <- call_local d ;;
            if negb (ignore_remote cfg) then
              catch (send_data d' (enelx_addr cfg) 100)
                    (on_forward_error "server" (ret (enelx_addr cfg)))
            else ret tt
          else if addr_eqb a (enelx_addr cfg) then
            if negb (ignore_remote cfg) then
              d' <- call_remote d ;;
              catch (send_data d' j 100)
                    (on_forward_error "client" (read_juicebox j))
            else ret tt
          else ret tt
      | None => ret tt
      end
  | _, _ => ret tt
  end.

(** [async with asyncio.timeout(HANDLER_TIMEOUT)] around a handler dispatch:
    the outermost such scope turns the cancellation of its own expiry into
    [TimeoutError]; a nested one (a receive loop run inside a handler)
    never expires first and lets the cancellation through. *)
Definition handler_timeout (m : M unit) : M unit :=
  fun w =>
    if in_handler w then m w else
    let (r, w') := m (set_in_handler true w) in
    let w'' := set_in_handler false w' in
    match r with
    | Exc CancelledError => (Exc TimeoutError, w'')
    | _ => (r, w'')
    end.

(** The [while] loop of [_mitm_loop] and the [raise] after it, given the
    [_connect] and [_main_mitm_handler] it calls; the fuel bounds the number
    of iterations. *)
Fixpoint mitm_loop_while (connect : M unit)
    (handler : option payload -> option addr -> M unit) (fuel : nat) : M unit :=
  match fuel with
  | O => stuck
  | S fuel' =>
      w <- get ;;
      if error_count w <? MAX_ERROR_COUNT cfg then
        if negb (dgram w) then
          add_error ;; connect ;; mitm_loop_while connect handler fuel'
        else
          r <- catch (x <- dgram_recv ;; ret (Some x))
                 (fun e => match e with
                           | TransportClosed =>
                               Some (add_error ;; modify (set_dgram false) ;; ret None)
                           | TimeoutError =>
                               Some (add_error ;; modify (set_dgram false) ;; ret None)
                           | _ => None
                           end) ;;
          match r with
          | None => mitm_loop_while connect handler fuel'
          | Some (d, a) =>
              catch (handler_timeout (handler (Some (Data d)) (Some a)))
                    (fun e => match e with
                              | TimeoutError => Some (add_error ;; modify (set_dgram false))
                              | _ => None
                              end) ;;
              mitm_loop_while connect handler fuel'
          end
      else
        raise (ChildProcessError (TooManyErrors (error_count w) (ERROR_LOOKBACK_MIN cfg)))
  end.

(** [_mitm_loop] and [_connect] call each other ([_connect] awaits the loop,
    the loop reconnects, and so does [send_data] called by the handler);
    the fuel bounds the depth of these calls. *)
Fixpoint mitm_loop (fuel : nat) : M unit :=
  match fuel with
  | O => stuck
  | S f => mitm_loop_while (connect f)
             (main_mitm_handler_with (send_data_with (connect f))) f
  end
with connect (fuel : nat) : M unit :=
  match fuel with
  | O => stuck
  | S f => connect_with (mitm_loop f)
  end.

Definition send_data (fuel : nat) : payload -> addr -> Z -> M unit :=
  send_data_with (connect fuel).

Definition main_mitm_handler (fuel : nat) : option payload -> option addr -> M unit :=
  main_mitm_handler_with (send_data fuel).

End Relay.

(** [async def close(self)]: close the socket if one is held, forget it,
    and wait 3 s. *)
Definition close : M unit :=
  w <- get ;;
  if dgram w then modify (set_dgram false) ;; sleep 3000 else ret tt.

(** ** Harness: configurations, fault injection and invariants *)

(** [errno.errorcode] on Linux (x86-64): the errno values 1 to 133 of
    [<asm-generic/errno.h>] and their names; 41 and 58 are unassigned.
    Where two names share a value, the entry is the one [errno.errorcode]
    reports, the name added last by CPython's [errnomodule.c]: [EAGAIN]
    (also [EWOULDBLOCK]), [EDEADLK] (also [EDEADLOCK]), [ENOTSUP] (also
    [EOPNOTSUPP]). *)
Definition errno_names : list (Z * string) :=
  [ (1, "EPERM"); (2, "ENOENT"); (3, "ESRCH"); (4, "EINTR"); (5, "EIO");
    (6, "ENXIO"); (7, "E2BIG"); (8, "ENOEXEC"); (9, "EBADF"); (10, "ECHILD");
    (11, "EAGAIN"); (12, "ENOMEM"); (13, "EACCES"); (14, "EFAULT"); (15, "ENOTBLK");
    (16, "EBUSY"); (17, "EEXIST"); (18, "EXDEV"); (19, "ENODEV"); (20, "ENOTDIR");
    (21, "EISDIR"); (22, "EINVAL"); (23, "ENFILE"); (24, "EMFILE"); (25, "ENOTTY");
    (26, "ETXTBSY"); (27, "EFBIG"); (28, "ENOSPC"); (29, "ESPIPE"); (30, "EROFS");
    (31, "EMLINK"); (32, "EPIPE"); (33, "EDOM"); (34, "ERANGE"); (35, "EDEADLK");
    (36, "ENAMETOOLONG"); (37, "ENOLCK"); (38, "ENOSYS"); (39, "ENOTEMPTY"); (40, "ELOOP");
    (42, "ENOMSG"); (43, "EIDRM"); (44, "ECHRNG"); (45, "EL2NSYNC"); (46, "EL3HLT");
    (47, "EL3RST"); (48, "ELNRNG"); (49, "EUNATCH"); (50, "ENOCSI"); (51, "EL2HLT");
    (52, "EBADE"); (53, "EBADR"); (54, "EXFULL"); (55, "ENOANO"); (56, "EBADRQC");
    (57, "EBADSLT"); (59, "EBFONT"); (60, "ENOSTR"); (61, "ENODATA"); (62, "ETIME");
    (63, "ENOSR"); (64, "ENONET"); (65, "ENOPKG"); (66, "EREMOTE"); (67, "ENOLINK");
    (68, "EADV"); (69, "ESRMNT"); (70, "ECOMM"); (71, "EPROTO"); (72, "EMULTIHOP");
    (73, "EDOTDOT"); (74, "EBADMSG"); (75, "EOVERFLOW"); (76, "ENOTUNIQ"); (77, "EBADFD");
    (78, "EREMCHG"); (79, "ELIBACC"); (80, "ELIBBAD"); (81, "ELIBSCN"); (82, "ELIBMAX");
    (83, "ELIBEXEC"); (84, "EILSEQ"); (85, "ERESTART"); (86, "ESTRPIPE"); (87, "EUSERS");
    (88, "ENOTSOCK"); (89, "EDESTADDRREQ"); (90, "EMSGSIZE"); (91, "EPROTOTYPE"); (92, "ENOPROTOOPT");
    (93, "EPROTONOSUPPORT"); (94, "ESOCKTNOSUPPORT"); (95, "ENOTSUP"); (96, "EPFNOSUPPORT"); (97, "EAFNOSUPPORT");
    (98, "EADDRINUSE"); (99, "EADDRNOTAVAIL"); (100, "ENETDOWN"); (101, "ENETUNREACH"); (102, "ENETRESET");
    (103, "ECONNABORTED"); (104, "ECONNRESET"); (105, "ENOBUFS"); (106, "EISCONN"); (107, "ENOTCONN");
    (108, "ESHUTDOWN"); (109, "ETOOMANYREFS"); (110, "ETIMEDOUT"); (111, "ECONNREFUSED"); (112, "EHOSTDOWN");
    (113, "EHOSTUNREACH"); (114, "EALREADY"); (115, "EINPROGRESS"); (116, "ESTALE"); (117, "EUCLEAN");
    (118, "ENOTNAM"); (119, "ENAVAIL"); (120, "EISNAM"); (121, "EREMOTEIO"); (122, "EDQUOT");
    (123, "ENOMEDIUM"); (124, "EMEDIUMTYPE"); (125, "ECANCELED"); (126, "ENOKEY"); (127, "EKEYEXPIRED");
    (128, "EKEYREVOKED"); (129, "EKEYREJECTED"); (130, "EOWNERDEAD"); (131, "ENOTRECOVERABLE"); (132, "ERFKILL");
    (133, "EHWPOISON") ]%string.

Definition errorcode_linux (n : Z) : option string :=
  match find (fun p => Z.eqb (fst p) n) errno_names with
  | Some (_, name) => Some name
  | None => None
  end.

Definition cloud_addr : addr := mkAddr "54.161.147.91" 8047.
Definition device_addr : addr := mkAddr "192.168.1.50" 8047.
Definition device_addr' : addr := mkAddr "192.168.1.77" 8047.

(** A relay configuration with the given [MAX_CONNECT_ATTEMPT],
    [MAX_ERROR_COUNT] and [ERROR_LOOKBACK_MIN]; the transforms forward
    unchanged. *)
Definition cfg_with (max_connect max_error lookback : Z) : config :=
  mkConfig (mkAddr "0.0.0.0" 8047) cloud_addr false (fun p => p) (fun p => p)
    errorcode_linux max_connect max_error lookback.

(** A fresh relay: no socket, no learned device, empty fault record. *)
Definition fresh_world (sock : bool) (c : list Z) (e : list event) : world :=
  mkWorld sock None 0 [] false false false c e [].

(** Fault injection: [n] successive calls of [_add_error]. *)
Fixpoint add_errors (cfg : config) (n : nat) : M unit :=
  match n with
  | O => ret tt
  | S n' => add_error cfg ;; add_errors cfg n'
  end.

(** [m] keeps the invariant [Inv], and every exception it raises satisfies
    [ExnOk] in the effect log it leaves. *)
Definition preserves (Inv : world -> Prop) (ExnOk : exn -> list effect -> Prop)
    {A} (m : M A) : Prop :=
  forall w, Inv w ->
    Inv (snd (m w)) /\ (forall e, fst (m w) = Exc e -> ExnOk e (out (snd (m w)))).

(** Some recorded fault left the count at [MAX_ERROR_COUNT] or above. *)
Definition count_reached (cfg : config) (l : list effect) : Prop :=
  exists t c, In (OFault t c) l /\ MAX_ERROR_COUNT cfg <= c.

Definition breaker_inv (cfg : config) (w : world) : Prop :=
  MAX_ERROR_COUNT cfg <= error_count w -> count_reached cfg (out w).

Definition breaker_exn (cfg : config) (e : exn) (l : list effect) : Prop :=
  forall c lb, e = ChildProcessError (TooManyErrors c lb) -> count_reached cfg l.

(** Every transmission by this task holding the lock; every bind with the
    lock held by this task or by another one. *)
Definition lock_ok (e : effect) : bool :=
  match e with
  | OSend _ _ h => h
  | OBind h o => h || o
  | _ => true
  end.

Definition lock_inv (w : world) : Prop := forallb lock_ok (out w) = true.

(** Scenario: the socket is held, no fault is recorded yet, and the
    environment delivers [ev]; the clock advances one second per fault. *)
Definition held_socket_world (ev : list event) : world :=
  mkWorld true None 0 [] false false false [1000; 1000; 2000; 2000; 3000; 3000] ev [].

(** Scenario: no socket; the first bind succeeds, the receive that follows
    reports the transport closed, and the next bind fails with EADDRINUSE. *)
Definition rebind_world : world :=
  fresh_world false [0; 0; 5000; 5000; 10000; 10000] [EBindOk; ERecvClosed; EBindErr 98].

(** [lock_inv] together with a condition [q] on the lock state
    (whether this task holds the lock, whether another task does). *)
Definition lock_inv_with (q : bool -> bool -> bool) (w : world) : Prop :=
  lock_inv w /\ q (holding w) (lock_other w) = true.

(** Scenario: no socket, and another task holds the socket lock, as a
    concurrent [send_data] does while its transmission is in flight. *)
Definition contended_world : world :=
  mkWorld false None 0 [] false false true [] [EBindOk] [].

(** ** [send_data] as its specification describes it

    Up to SEND_DATA_RETRIES attempts, stopping at the first success.  An
    attempt reconnects first when no socket is held, then transmits under
    the lock; it ends in one of three outcomes (sent; transport closed:
    fault recorded and socket dropped; timed out: fault recorded), after
    each of which it sleeps [max(minDelay, 0.1 s)].  Exceptions of the
    reconnect and any other transmission error propagate at once.  All
    attempts unsent: "unable to send". *)
Inductive send_outcome := Sent | Closed | TimedOut.

Definition is_sent (o : send_outcome) : bool :=
  match o with Sent => true | _ => false end.

Section SendSpec.
Context (cfg : config).

Definition transmit (data : payload) (to_addr : addr) : M send_outcome :=
  catch (with_lock
           (catch (dgram_send data to_addr ;; ret Sent)
                  (fun e => match e with
                            | TransportClosed =>
                                Some (add_error cfg ;; modify (set_dgram false) ;; ret Closed)
                            | _ => None
                            end)))
        (fun e => match e with
                  | TimeoutError => Some (add_error cfg ;; ret TimedOut)
                  | _ => None
                  end).

Definition spec_attempt (connect : M unit) (data : payload) (to_addr : addr)
    (min_delay : Z) : M send_outcome :=
  w <- get ;;
  (if negb (dgram w) then connect else ret tt) ;;
  o <- transmit data to_addr ;;
  sleep (Z.max min_delay 100) ;;
  ret o.

Fixpoint spec_attempts (connect : M unit) (data : payload) (to_addr : addr)
    (min_delay : Z) (n : nat) : M unit :=
  match n with
  | O => raise (ChildProcessError UnableToSend)
  | S n' =>
      o <- spec_attempt connect data to_addr min_delay ;;
      match o with
      | Sent => ret tt
      | _ => spec_attempts connect data to_addr min_delay n'
      end
  end.

Definition send_data_spec (connect : M unit) (data : payload) (to_addr : addr)
    (min_delay : Z) : M unit :=
  spec_attempts connect data to_addr min_delay (Z.to_nat SEND_DATA_RETRIES).

End SendSpec.

(** ** The message codec

    Modelled from the spec: the codec ([juicebox_message.py]) is not part of
    the sources, so its wire grammar is taken from the specification and
    its test vectors.  Messages are lists of characters.  A command is
    [CMD] + DOW(1) + HHMM(4) + [A] + amperage + [M] + offline amperage + [C]
    + three digits + [S] + sequence(3) + [!] + checksum(3) + [$], the
    amperages two and two digits wide (legacy) or four and three (widened);
    a status is serial digits + [:] + comma-joined tokens, each a non-empty
    run of letters (the key) and its value, + [!] + checksum(3) + [:].  The
    checksum function is a parameter: any function of the payload (the text
    before [!]).  Fields are kept as the digit strings [get_value] returns. *)

Definition chars (s : string) : list ascii := list_ascii_of_string s.

Definition is_digit (c : ascii) : bool :=
  Nat.leb 48 (nat_of_ascii c) && Nat.leb (nat_of_ascii c) 57.

Definition is_alpha (c : ascii) : bool :=
  (Nat.leb 65 (nat_of_ascii c) && Nat.leb (nat_of_ascii c) 90) ||
  (Nat.leb 97 (nat_of_ascii c) && Nat.leb (nat_of_ascii c) 122).

Fixpoint ascii_list_eqb (l1 l2 : list ascii) : bool :=
  match l1, l2 with
  | [], [] => true
  | c1 :: l1', c2 :: l2' => Ascii.eqb c1 c2 && ascii_list_eqb l1' l2'
  | _, _ => false
  end.

(** The longest prefix whose characters satisfy [p], and the rest. *)
Fixpoint span (p : ascii -> bool) (l : list ascii) : list ascii * list ascii :=
  match l with
  | [] => ([], [])
  | c :: l' => if p c then let (a, b) := span p l' in (c :: a, b) else ([], l)
  end.

(** [l] without the prefix [pre], if it starts with it. *)
Fixpoint strip (pre l : list ascii) : option (list ascii) :=
  match pre, l with
  | [], _ => Some l
  | c :: pre', x :: l' => if Ascii.eqb c x then strip pre' l' else None
  | _ :: _, [] => None
  end.

Fixpoint split_on (sep : ascii) (l : list ascii) : list (list ascii) :=
  match l with
  | [] => [[]]
  | c :: l' =>
      if Ascii.eqb c sep then [] :: split_on sep l'
      else match split_on sep l' with
           | [] => [[c]]
           | x :: xs => (c :: x) :: xs
           end
  end.

Fixpoint join (sep : ascii) (ls : list (list ascii)) : list ascii :=
  match ls with
  | [] => []
  | [x] => x
  | x :: xs => x ++ sep :: join sep xs
  end.

Definition widths_ok (amps offline : nat) : bool :=
  (Nat.eqb amps 2 && Nat.eqb offline 2) || (Nat.eqb amps 4 && Nat.eqb offline 3).

Record command := mkCommand {
  cmd_dow : list ascii; cmd_hhmm : list ascii; cmd_amps : list ascii;
  cmd_offline : list ascii; cmd_c : list ascii; cmd_seq : list ascii;
  cmd_checksum : list ascii
}.

Record token := mkToken { tok_key : list ascii; tok_value : list ascii }.

Record status := mkStatus {
  st_serial : list ascii; st_tokens : list token; st_checksum : list ascii
}.

Inductive message := Command (c : command) | Status (s : status).

Definition split_token (t : list ascii) : token :=
  let (k, v) := span is_alpha t in mkToken k v.

Definition token_str (t : token) : list ascii := tok_key t ++ tok_value t.

Section Codec.
Variable checksum_computed : list ascii -> list ascii.

Definition command_payload (m : command) : list ascii :=
  chars "CMD" ++ cmd_dow m ++ cmd_hhmm m ++ chars "A" ++ cmd_amps m ++ chars "M" ++
  cmd_offline m ++ chars "C" ++ cmd_c m ++ chars "S" ++ cmd_seq m.

Definition status_payload (m : status) : list ascii :=
  st_serial m ++ chars ":" ++ join "," (map token_str (st_tokens m)).

Definition build (m : message) : list ascii :=
  match m with
  | Command c =>
      let p := command_payload c in p ++ chars "!" ++ checksum_computed p ++ chars "$"
  | Status st =>
      let p := status_payload st in p ++ chars "!" ++ checksum_computed p ++ chars ":"
  end.

(** The checksum section: [!], three characters, the terminator [term];
    the three characters must be the checksum of the payload [p]. *)
Definition checksum_section (p : list ascii) (term : ascii) (r : list ascii)
    : option (list ascii) :=
  match strip (chars "!") r with
  | Some [c1; c2; c3; t] =>
      if Ascii.eqb t term && ascii_list_eqb (checksum_computed p) [c1; c2; c3]
      then Some [c1; c2; c3] else None
  | _ => None
  end.

Definition parse_command (s : list ascii) : option command :=
  let p := firstn (List.length s - 5) s in
  match strip (chars "CMD") s with
  | None => None
  | Some r1 =>
    let (dh, r2) := span is_digit r1 in
    match strip (chars "A") r2 with
    | None => None
    | Some r3 =>
      let (amps, r4) := span is_digit r3 in
      match strip (chars "M") r4 with
      | None => None
      | Some r5 =>
        let (off, r6) := span is_digit r5 in
        match strip (chars "C") r6 with
        | None => None
        | Some r7 =>
          let (cc, r8) := span is_digit r7 in
          match strip (chars "S") r8 with
          | None => None
          | Some r9 =>
            let (sq, r10) := span is_digit r9 in
            if Nat.eqb (List.length dh) 5 && widths_ok (List.length amps) (List.length off)
               && Nat.eqb (List.length cc) 3 && Nat.eqb (List.length sq) 3
            then match checksum_section p "$" r10 with
                 | Some cs => Some (mkCommand (firstn 1 dh) (skipn 1 dh) amps off cc sq cs)
                 | None => None
                 end
            else None
          end
        end
      end
    end
  end.

Definition parse_status (s : list ascii) : option status :=
  let p := firstn (List.length s - 5) s in
  let (serial, r1) := span is_digit s in
  match strip (chars ":") r1 with
  | None => None
  | Some r2 =>
    let (body, r3) := span (fun c => negb (Ascii.eqb c "!")) r2 in
    let toks := map split_token (split_on "," body) in
    if negb (Nat.eqb (List.length serial) 0) &&
       forallb (fun t => negb (Nat.eqb (List.length (tok_key t)) 0)) toks
    then match checksum_section p ":" r3 with
         | Some cs => Some (mkStatus serial toks cs)
         | None => None
         end
    else None
  end.

(** [juicebox_message_from_string] on the text variants. *)
Definition parse (s : list ascii) : option message :=
  match parse_command s with
  | Some c => Some (Command c)
  | None => match parse_status s with Some st => Some (Status st) | None => None end
  end.

End Codec.

(** Checksums of the test vectors of [test_message.py]. *)
Definition test_checksum (p : list ascii) : list ascii :=
  if list_eq_dec ascii_dec p (chars "CMD41325A0040M040C006S638") then chars "5N5"
  else if list_eq_dec ascii_dec p (chars "CMD62210A20M18C006S006") then chars "31Y"
  else if list_eq_dec ascii_dec p (chars "0910042001260513476122621631:v09u,s627,F10,u01254993,V2414,L00004555804,S01,T08,M0040,C0040,m0040,t29,i75,e00000,f5999,r61,b000,B0000000")
  then chars "55M"
  else [].


(** The fault record is consistent: the count is the length of the list,
    and the list followed by the clock readings still to come is sorted. *)
Definition record_ok (w : world) : Prop :=
  error_count w = Z.of_nat (List.length (error_timestamps w)) /\
  StronglySorted Z.le (error_timestamps w ++ clock w).




(* ------------------------------------------------------------------ *)
(** * Proofs *)

(** ** The fault record *)

(** Claim C7 (amended).  [_add_error] appends the current time [t], reads
    the clock again ([t']), keeps exactly the timestamps strictly newer than
    [t' - ERROR_LOOKBACK_MIN] minutes, and sets the count to the length of
    the kept list. *)
Theorem add_error_prunes_half_open (cfg : config) (w : world) (t t' : Z) (rest : list Z) :
  add_error cfg (set_clock (t :: t' :: rest) w) =
  (Ok tt,
   let kept := filter (fun el => t' - ERROR_LOOKBACK_MIN cfg * 60 * 1000 <? el)
                 (error_timestamps w ++ [t]) in
   emit (OFault t (Z.of_nat (List.length kept)))
        (set_errors kept (Z.of_nat (List.length kept)) (set_clock rest w))).
Proof. reflexivity. Qed.

(** Claim C7 (counterexample).  With a 10-minute window, a fault recorded at
    [0] is dropped by a record at [600000] ms, exactly 10 minutes later: the
    window is not closed at [now - LOOKBACK]. *)
Lemma add_error_drops_exact_lookback :
  let w' := snd (add_error (cfg_with 3 3 10)
                   (mkWorld true None 1 [0] false false false [600000; 600000] [] [])) in
  error_timestamps w' = [600000] /\ error_count w' = 1 /\ ~ In 0 (error_timestamps w').
Proof.
  simpl. split; [reflexivity | split; [reflexivity |]].
  intros [H | []]. discriminate.
Qed.

(** ** The datagram handler *)

(** Claim C10.  Given a [None] payload or a [None] source address, the
    handler returns at once: no effect (no transmission, no transform call)
    and an unchanged world. *)
Theorem handler_ignores_missing (cfg : config) (fuel : nat) (d : option payload)
    (a : option addr) (w : world) :
  main_mitm_handler cfg fuel None a w = (Ok tt, w) /\
  main_mitm_handler cfg fuel d None w = (Ok tt, w).
Proof. split; [reflexivity | destruct d; reflexivity]. Qed.

(** ** Invariants kept by the whole relay

    A generic argument: an invariant of the world and a condition on the
    exceptions raised, kept by the primitive steps, are kept by every
    function of the relay. *)

Section Preservation.
Context (cfg : config) (Inv : world -> Prop) (ExnOk : exn -> list effect -> Prop).

Hypothesis inv_dgram : forall b w, Inv w -> Inv (set_dgram b w).
Hypothesis inv_juicebox : forall a w, Inv w -> Inv (set_juicebox a w).
Hypothesis inv_lock : forall h o w, Inv w -> Inv (set_lock h o w).
Hypothesis inv_in_handler : forall b w, Inv w -> Inv (set_in_handler b w).
Hypothesis inv_env : forall es w, Inv w -> Inv (set_env es w).
Hypothesis inv_local : forall p w, Inv w -> Inv (emit (OLocal p) w).
Hypothesis inv_remote : forall p w, Inv w -> Inv (emit (ORemote p) w).
Hypothesis inv_sleep : forall ms w, Inv w -> Inv (emit (OSleep ms) w).
Hypothesis exn_other :
  forall e l, (forall c lb, e <> ChildProcessError (TooManyErrors c lb)) -> ExnOk e l.
Hypothesis exn_breaker :
  forall w, Inv w -> ~ error_count w < MAX_ERROR_COUNT cfg ->
  ExnOk (ChildProcessError (TooManyErrors (error_count w) (ERROR_LOOKBACK_MIN cfg))) (out w).
Hypothesis pres_add_error : preserves Inv ExnOk (add_error cfg).
Hypothesis pres_connect_bind : preserves Inv ExnOk connect_bind.
Hypothesis pres_send_attempt : forall d a, preserves Inv ExnOk (send_attempt cfg d a).

Local Abbreviation P := (preserves Inv ExnOk).

Lemma pres_ret {A} (a : A) : P (ret a).
Proof. intros w Hw. split; [exact Hw | discriminate]. Qed.

Lemma pres_get : P get.
Proof. intros w Hw. split; [exact Hw | discriminate]. Qed.

Lemma pres_stuck {A} : P (@stuck A).
Proof. intros w Hw. split; [exact Hw | discriminate]. Qed.

Lemma pres_modify (f : world -> world) : (forall w, Inv w -> Inv (f w)) -> P (modify f).
Proof. intros Hf w Hw. split; [exact (Hf w Hw) | discriminate]. Qed.

Lemma pres_raise {A} (e : exn) :
  (forall c lb, e <> ChildProcessError (TooManyErrors c lb)) -> P (@raise A e).
Proof.
  intros He w Hw. split; [exact Hw |].
  intros e' H. injection H as <-. apply exn_other, He.
Qed.

Lemma pres_bind {A B} (m : M A) (k : A -> M B) :
  P m -> (forall a, P (k a)) -> P (bind m k).
Proof.
  intros Hm Hk w Hw. unfold bind.
  destruct (Hm w Hw) as [Hw' He]. destruct (m w) as [[a| e |] w']; simpl in *.
  - exact (Hk a w' Hw').
  - split; [exact Hw' | intros e' E; injection E as <-; exact (He e eq_refl)].
  - split; [exact Hw' | discriminate].
Qed.

Lemma pres_catch {A} (m : M A) (h : exn -> option (M A)) :
  P m -> (forall e k, h e = Some k -> P k) -> P (catch m h).
Proof.
  intros Hm Hh w Hw. unfold catch.
  destruct (Hm w Hw) as [Hw' He]. destruct (m w) as [[a| e |] w']; simpl in *.
  - split; [exact Hw' | discriminate].
  - destruct (h e) as [k|] eqn:E.
    + exact (Hh e k E w' Hw').
    + split; [exact Hw' | intros e' E'; injection E' as <-; exact (He e eq_refl)].
  - split; [exact Hw' | discriminate].
Qed.

Lemma pres_bind_get {A} (k : world -> M A) :
  (forall w, Inv w ->
     Inv (snd (k w w)) /\ (forall e, fst (k w w) = Exc e -> ExnOk e (out (snd (k w w))))) ->
  P (bind get k).
Proof. intros H w Hw. exact (H w Hw). Qed.

Lemma pres_await_point : P await_point.
Proof.
  intros w Hw. unfold await_point.
  destruct (env w) as [| [] es]; simpl; try (split; [exact Hw | discriminate]).
  destruct (in_handler w); simpl.
  - split; [apply inv_env, Hw |]. intros e E. injection E as <-. apply exn_other; discriminate.
  - split; [exact Hw | discriminate].
Qed.

Lemma pres_next_event : P next_event.
Proof.
  intros w Hw. unfold next_event.
  destruct (env w) as [| ev es]; simpl.
  - split; [exact Hw | discriminate].
  - split; [apply inv_env, Hw | discriminate].
Qed.

Lemma pres_wait_event : P wait_event.
Proof. apply pres_bind; [apply pres_await_point | intros; apply pres_next_event]. Qed.

Lemma pres_sleep (ms : Z) : P (sleep ms).
Proof. apply pres_bind; [apply pres_await_point | intros; apply pres_modify, inv_sleep]. Qed.

Lemma pres_call_local (p : payload) : P (call_local cfg p).
Proof.
  apply pres_bind; [apply pres_modify, inv_local |]. intros _.
  apply pres_bind; [apply pres_await_point | intros; apply pres_ret].
Qed.

Lemma pres_call_remote (p : payload) : P (call_remote cfg p).
Proof.
  apply pres_bind; [apply pres_modify, inv_remote |]. intros _.
  apply pres_bind; [apply pres_await_point | intros; apply pres_ret].
Qed.

Lemma pres_dgram_recv : P (dgram_recv).
Proof.
  apply pres_bind; [apply pres_wait_event |]. intros [];
    first [apply pres_ret | apply pres_stuck | apply pres_raise; discriminate].
Qed.

Lemma pres_errorcode_of (e : exn) : P (errorcode_of cfg e).
Proof.
  unfold errorcode_of. destruct (errno_of e) as [n|].
  - destruct (errorcode cfg n); [apply pres_ret | apply pres_raise; discriminate].
  - apply pres_raise; discriminate.
Qed.

Lemma pres_handler_timeout (m : M unit) : P m -> P (handler_timeout m).
Proof.
  intros Hm w Hw. unfold handler_timeout. destruct (in_handler w).
  - exact (Hm w Hw).
  - destruct (Hm (set_in_handler true w) (inv_in_handler _ _ Hw)) as [Hw' He].
    destruct (m (set_in_handler true w)) as [r w']. simpl in *.
    destruct r as [a| e |]; simpl.
    + split; [apply inv_in_handler, Hw' | discriminate].
    + destruct e; simpl;
        try (split; [apply inv_in_handler, Hw' |
                     intros e' E; injection E as <-; exact (He _ eq_refl)]).
      split; [apply inv_in_handler, Hw' |].
      intros e' E. injection E as <-. apply exn_other. discriminate.
    + split; [apply inv_in_handler, Hw' | discriminate].
Qed.

(** Python's [if]/[match] on values read from the world. *)
Ltac pres_step :=
  match goal with
  | H : (if ?b then _ else _) = Some _ |- _ => destruct b
  | H : (match ?x with _ => _ end) = Some _ |- _ => destruct x
  | H : Some _ = Some _ |- _ => injection H as <-
  | H : None = Some _ |- _ => discriminate H
  | |- P (bind _ _) => apply pres_bind; [| intros ?]
  | |- P (catch _ _) => apply pres_catch; [| intros ? ? ?]
  | |- P (ret _) => apply pres_ret
  | |- P get => apply pres_get
  | |- P stuck => apply pres_stuck
  | |- P (raise _) => apply pres_raise; discriminate
  | |- P (if ?b then _ else _) => destruct b
  | |- P (match ?x with _ => _ end) => destruct x
  | |- P (modify (set_dgram _)) => apply pres_modify; intros; apply inv_dgram; assumption
  | |- P (modify (set_juicebox _)) => apply pres_modify; intros; apply inv_juicebox; assumption
  | |- P (add_error _) => apply pres_add_error
  | |- P (sleep _) => apply pres_sleep
  | |- P (call_local _ _) => apply pres_call_local
  | |- P (call_remote _ _) => apply pres_call_remote
  | |- P (errorcode_of _ _) => apply pres_errorcode_of
  | |- P dgram_recv => apply pres_dgram_recv
  | |- P connect_bind => apply pres_connect_bind
  | |- P (send_attempt _ _ _) => apply pres_send_attempt
  end.

Lemma pres_connect_while (fuel : nat) (attempt : Z) : P (connect_while cfg fuel attempt).
Proof.
  revert attempt. induction fuel as [| fuel IH]; intros attempt; simpl.
  - apply pres_ret.
  - repeat pres_step; apply IH.
Qed.

Lemma pres_connect_with (loop : M unit) : P loop -> P (connect_with cfg loop).
Proof.
  intros Hl. unfold connect_with.
  apply pres_bind; [apply pres_connect_while | intros _].
  repeat pres_step. exact Hl.
Qed.

Lemma pres_send_while (connect : M unit) d a b fuel sent attempt :
  P connect -> P (send_while cfg connect d a b fuel sent attempt).
Proof.
  intros Hc. revert sent attempt.
  induction fuel as [| fuel IH]; intros sent attempt; simpl.
  - apply pres_ret.
  - repeat pres_step; try apply IH. exact Hc.
Qed.

Lemma pres_send_data_with (connect : M unit) d a b :
  P connect -> P (send_data_with cfg connect d a b).
Proof.
  intros Hc. unfold send_data_with.
  apply pres_bind; [apply pres_send_while, Hc | intros s; repeat pres_step].
Qed.

Lemma pres_on_forward_error dir (dest : M addr) e k :
  P dest -> on_forward_error cfg dir dest e = Some k -> P k.
Proof.
  intros Hd H. unfold on_forward_error in H.
  repeat pres_step. exact Hd.
Qed.

Lemma pres_main_mitm_handler_with (send : payload -> addr -> Z -> M unit) d a :
  (forall d' a' b, P (send d' a' b)) -> P (main_mitm_handler_with cfg send d a).
Proof.
  intros Hs. unfold main_mitm_handler_with.
  repeat pres_step; try apply Hs;
    (eapply pres_on_forward_error; [| eassumption]);
    unfold read_juicebox; repeat pres_step.
Qed.

Lemma pres_mitm_loop_while (connect : M unit)
    (handler : option payload -> option addr -> M unit) fuel :
  P connect -> (forall d a, P (handler d a)) -> P (mitm_loop_while cfg connect handler fuel).
Proof.
  intros Hc Hh. induction fuel as [| fuel IH]; simpl.
  - apply pres_stuck.
  - apply pres_bind_get. intros w Hw.
    destruct (error_count w <? MAX_ERROR_COUNT cfg) eqn:E.
    + match goal with |- Inv (snd (?A w)) /\ _ =>
        enough (HA : P A) by exact (HA w Hw) end.
      repeat pres_step; try apply IH; try apply Hc.
      apply pres_handler_timeout, Hh.
    + split; [exact Hw |]. intros e H. injection H as <-.
      apply exn_breaker; [exact Hw |]. apply Z.ltb_ge in E. simpl. lia.
Qed.

Lemma pres_mitm_loop_connect (fuel : nat) :
  P (mitm_loop cfg fuel) /\ P (connect cfg fuel).
Proof.
  induction fuel as [| fuel [IHl IHc]]; simpl.
  - split; apply pres_stuck.
  - split.
    + apply pres_mitm_loop_while; [exact IHc |].
      intros d a. apply pres_main_mitm_handler_with.
      intros. apply pres_send_data_with, IHc.
    + apply pres_connect_with, IHl.
Qed.

End Preservation.

Section WithLock.
Context (Inv : world -> Prop) (ExnOk : exn -> list effect -> Prop).
Hypothesis inv_lock : forall h o w, Inv w -> Inv (set_lock h o w).
Hypothesis inv_env : forall es w, Inv w -> Inv (set_env es w).
Hypothesis exn_other :
  forall e l, (forall c lb, e <> ChildProcessError (TooManyErrors c lb)) -> ExnOk e l.

Lemma pres_with_lock {A} (m : M A) :
  preserves Inv ExnOk m -> preserves Inv ExnOk (with_lock m).
Proof.
  intros Hm. unfold with_lock.
  apply (pres_bind Inv ExnOk); [apply pres_get | intros w0].
  apply (pres_bind Inv ExnOk).
  { destruct (lock_other w0);
      [apply (pres_await_point Inv ExnOk inv_env exn_other) | apply pres_ret]. }
  intros _. apply (pres_bind Inv ExnOk); [apply pres_modify; intros; apply inv_lock; assumption |].
  intros _ w Hw. destruct (Hm w Hw) as [Hw' He]. destruct (m w) as [r w']. simpl in *.
  split; [apply inv_lock, Hw' | exact He].
Qed.

End WithLock.

(** ** The error window: instantiation *)

Lemma count_reached_app (cfg : config) (l l' : list effect) :
  count_reached cfg l -> count_reached cfg (l ++ l').
Proof.
  intros (t & c & Hin & Hc). exists t, c. split; [apply in_or_app; left; exact Hin | exact Hc].
Qed.

Lemma breaker_inv_emit (cfg : config) (e : effect) (w : world) :
  breaker_inv cfg w -> breaker_inv cfg (emit e w).
Proof. unfold breaker_inv. simpl. intros H Hc. apply count_reached_app, H, Hc. Qed.

Lemma add_error_unfold (cfg : config) (w : world) (t t' : Z) (rest : list Z) :
  clock w = t :: t' :: rest ->
  add_error cfg w =
  (Ok tt,
   let kept := filter (fun el => t' - ERROR_LOOKBACK_MIN cfg * 60 * 1000 <? el)
                 (error_timestamps w ++ [t]) in
   emit (OFault t (Z.of_nat (List.length kept)))
        (set_errors kept (Z.of_nat (List.length kept)) (set_clock rest w))).
Proof. intros Hc. unfold add_error, now, bind, get, modify. rewrite Hc. reflexivity. Qed.

Lemma breaker_add_error (cfg : config) :
  preserves (breaker_inv cfg) (breaker_exn cfg) (add_error cfg).
Proof.
  intros w Hw. destruct (clock w) as [| t [| t' rest]] eqn:Hc.
  - unfold add_error, now, bind. rewrite Hc. split; [exact Hw | discriminate].
  - unfold add_error, now, bind, get, modify. rewrite Hc. simpl.
    split; [exact Hw | discriminate].
  - rewrite (add_error_unfold cfg w t t' rest Hc). simpl. split; [| discriminate].
    unfold breaker_inv. simpl. intros Hmax.
    eexists t, _. split; [apply in_or_app; right; left; reflexivity | exact Hmax].
Qed.

Section Breaker.
Context (cfg : config).

Local Ltac inv_setter := intros; unfold breaker_inv in *; simpl in *; assumption.

Lemma breaker_exn_other (e : exn) (l : list effect) :
  (forall c lb, e <> ChildProcessError (TooManyErrors c lb)) -> breaker_exn cfg e l.
Proof. intros He c lb E. exfalso. exact (He c lb E). Qed.

Lemma breaker_exn_raise (w : world) :
  breaker_inv cfg w -> ~ error_count w < MAX_ERROR_COUNT cfg ->
  breaker_exn cfg (ChildProcessError (TooManyErrors (error_count w) (ERROR_LOOKBACK_MIN cfg)))
    (out w).
Proof. intros Hw Hc c lb _. apply Hw. lia. Qed.

Lemma breaker_dgram_bind : preserves (breaker_inv cfg) (breaker_exn cfg) dgram_bind.
Proof.
  unfold dgram_bind.
  apply pres_bind; [apply pres_wait_event; [inv_setter | apply breaker_exn_other] | intros ev].
  apply pres_bind; [apply pres_get | intros w0].
  destruct ev; try apply pres_stuck.
  - apply pres_modify. intros w Hw. apply (breaker_inv_emit cfg _ _ Hw).
  - apply pres_bind; [apply pres_modify; intros; apply breaker_inv_emit; assumption | intros _].
    apply pres_raise; [apply breaker_exn_other | discriminate].
Qed.

Lemma breaker_connect_bind : preserves (breaker_inv cfg) (breaker_exn cfg) connect_bind.
Proof.
  unfold connect_bind, locked.
  apply pres_bind; [apply pres_bind; [apply pres_get | intros; apply pres_ret] | intros l].
  destruct l; [apply breaker_dgram_bind |].
  apply pres_with_lock; [inv_setter | inv_setter | apply breaker_exn_other | apply breaker_dgram_bind].
Qed.

Lemma breaker_send_attempt (d : payload) (a : addr) :
  preserves (breaker_inv cfg) (breaker_exn cfg) (send_attempt cfg d a).
Proof.
  unfold send_attempt.
  apply pres_catch.
  - apply pres_with_lock; [inv_setter | inv_setter | apply breaker_exn_other |].
    apply pres_catch.
    + apply pres_bind; [| intros; apply pres_ret].
      unfold dgram_send.
      apply pres_bind; [apply pres_get | intros w0].
      destruct (negb (dgram w0)); [apply pres_raise; [apply breaker_exn_other | discriminate] |].
      apply pres_bind; [apply pres_wait_event; [inv_setter | apply breaker_exn_other] | intros ev].
      destruct ev; try apply pres_stuck;
        try (apply pres_raise; [apply breaker_exn_other | discriminate]);
        try (apply pres_modify; intros; apply breaker_inv_emit; assumption);
        (apply pres_bind; [apply pres_modify; intros; apply breaker_inv_emit; assumption | intros _];
         apply pres_raise; [apply breaker_exn_other | discriminate]).
    + intros e k H. destruct e; try discriminate. injection H as <-.
      apply pres_bind; [apply breaker_add_error | intros _].
      apply pres_bind; [apply pres_modify; inv_setter | intros _; apply pres_ret].
  - intros e k H. destruct e; try discriminate. injection H as <-.
    apply pres_bind; [apply breaker_add_error | intros _; apply pres_ret].
Qed.

Lemma breaker_mitm_loop (fuel : nat) :
  preserves (breaker_inv cfg) (breaker_exn cfg) (mitm_loop cfg fuel).
Proof.
  apply (pres_mitm_loop_connect cfg); try inv_setter;
    try (intros; apply breaker_inv_emit; assumption).
  - apply breaker_exn_other.
  - apply breaker_exn_raise.
  - apply breaker_add_error.
  - apply breaker_connect_bind.
  - apply breaker_send_attempt.
Qed.

End Breaker.

(** ** The error window: faults within the window trip the breaker *)

Lemma filter_keep_all {A} (f : A -> bool) (l : list A) :
  Forall (fun x => f x = true) l -> filter f l = l.
Proof.
  induction 1 as [| x l Hx _ IH]; [reflexivity |]. simpl. rewrite Hx, IH. reflexivity.
Qed.

(** Records whose clock readings all lie in [[lo, hi]], a span shorter than
    the window, keep every timestamp. *)
Lemma add_errors_within (cfg : config) (lo hi : Z) :
  hi - ERROR_LOOKBACK_MIN cfg * 60 * 1000 < lo ->
  forall n w,
  List.length (clock w) = (2 * n)%nat ->
  Forall (fun t => lo <= t <= hi) (clock w) ->
  Forall (fun t => lo <= t <= hi) (error_timestamps w) ->
  error_count w = Z.of_nat (List.length (error_timestamps w)) ->
  exists w',
    add_errors cfg n w = (Ok tt, w') /\
    List.length (error_timestamps w') = (List.length (error_timestamps w) + n)%nat /\
    error_count w' = Z.of_nat (List.length (error_timestamps w')).
Proof.
  intros Hspan n. induction n as [| n IH]; intros w Hlen Hc Hts Hcnt.
  - exists w. split; [reflexivity |]. split; [lia | exact Hcnt].
  - destruct (clock w) as [| t [| t' rest]] eqn:Hcl; simpl in Hlen; try lia.
    inversion Hc as [| ? ? Ht Hc1]; subst. inversion Hc1 as [| ? ? Ht' Hrest]; subst.
    assert (Hkeep : filter (fun el => t' - ERROR_LOOKBACK_MIN cfg * 60 * 1000 <? el)
                      (error_timestamps w ++ [t]) = error_timestamps w ++ [t]).
    { apply filter_keep_all. apply Forall_app. split.
      - eapply Forall_impl; [| exact Hts]. simpl. intros x Hx. apply Z.ltb_lt. lia.
      - constructor; [apply Z.ltb_lt; lia | constructor]. }
    set (w1 := emit (OFault t (Z.of_nat (List.length (error_timestamps w ++ [t]))))
                 (set_errors (error_timestamps w ++ [t])
                    (Z.of_nat (List.length (error_timestamps w ++ [t]))) (set_clock rest w))).
    destruct (IH w1) as (w' & Hrun & Hl & Hcw').
    + simpl. lia.
    + exact Hrest.
    + simpl. apply Forall_app. split; [exact Hts | constructor; [lia | constructor]].
    + reflexivity.
    + exists w'. split; [| split; [| exact Hcw']].
      * simpl add_errors. unfold bind at 1.
        rewrite (add_error_unfold cfg w t t' rest Hcl). simpl. rewrite Hkeep. exact Hrun.
      * rewrite Hl. simpl. rewrite length_app. simpl. lia.
Qed.

(** Claim C2.  Starting from an empty fault record, [n >= MAX_ERROR_COUNT]
    faults recorded within ERROR_LOOKBACK_MIN minutes (every clock reading of
    the records in [[lo, hi]], [hi - lo] shorter than the window) leave the
    count at [n], and the receive loop then ends by raising the fatal
    "More than n errors" failure.  Conversely, in any run of the receive loop
    started below the threshold, that failure is raised only if some
    recorded fault left the count at [MAX_ERROR_COUNT] or above, that is
    (by C7) only if [MAX_ERROR_COUNT] faults lay inside one window: faults
    spaced so that fewer ever lie inside a window never raise it. *)
Theorem error_window_breaker (cfg : config) :
  (forall (n : nat) (w : world) (lo hi : Z),
     error_timestamps w = [] -> error_count w = 0 ->
     List.length (clock w) = (2 * n)%nat ->
     Forall (fun t => lo <= t <= hi) (clock w) ->
     hi - ERROR_LOOKBACK_MIN cfg * 60 * 1000 < lo ->
     MAX_ERROR_COUNT cfg <= Z.of_nat n ->
     let w' := snd (add_errors cfg n w) in
     fst (add_errors cfg n w) = Ok tt /\ error_count w' = Z.of_nat n /\
     forall fuel, mitm_loop cfg (S (S fuel)) w' =
       (Exc (ChildProcessError (TooManyErrors (Z.of_nat n) (ERROR_LOOKBACK_MIN cfg))), w')) /\
  (forall (fuel : nat) (w : world),
     error_count w < MAX_ERROR_COUNT cfg ->
     (forall t c, In (OFault t c) (out (snd (mitm_loop cfg fuel w))) ->
        c < MAX_ERROR_COUNT cfg) ->
     forall c lb, fst (mitm_loop cfg fuel w) <> Exc (ChildProcessError (TooManyErrors c lb))).
Proof.
  split.
  - intros n w lo hi Hts Hcnt Hlen Hc Hspan Hmax.
    destruct (add_errors_within cfg lo hi Hspan n w Hlen Hc) as (w' & Hrun & Hl & Hcw');
      [rewrite Hts; constructor | rewrite Hts, Hcnt; reflexivity |].
    rewrite Hrun. simpl. rewrite Hts in Hl. simpl in Hl.
    assert (Hc' : error_count w' = Z.of_nat n) by (rewrite Hcw', Hl; reflexivity).
    split; [reflexivity | split; [exact Hc' |]].
    intros fuel. simpl. unfold bind, get. rewrite Hc'.
    replace (Z.of_nat n <? MAX_ERROR_COUNT cfg) with false by (symmetry; apply Z.ltb_ge; lia).
    reflexivity.
  - intros fuel w Hw Hsmall c lb Hexc.
    destruct (breaker_mitm_loop cfg fuel w) as [_ He].
    + unfold breaker_inv. lia.
    + destruct (He _ Hexc c lb eq_refl) as (t & c' & Hin & Hc').
      specialize (Hsmall t c' Hin). lia.
Qed.

(** ** Address learning *)

Lemma addr_eqb_refl (a : addr) : addr_eqb a a = true.
Proof. unfold addr_eqb. rewrite String.eqb_refl, Z.eqb_refl. reflexivity. Qed.

(** The handler on a datagram from a host other than the cloud's: it sets
    [self._juicebox_addr] to the source, then takes the device branch. *)
Lemma handler_device_branch (cfg : config) (send : payload -> addr -> Z -> M unit)
    (d : payload) (a : addr) (w : world) :
  host a <> host (enelx_addr cfg) ->
  main_mitm_handler_with cfg send (Some d) (Some a) w =
  (d' <- call_local cfg d ;;
   if negb (ignore_remote cfg) then
     catch (send d' (enelx_addr cfg) 100)
           (on_forward_error cfg "server" (ret (enelx_addr cfg)))
   else ret tt) (set_juicebox (Some a) w).
Proof.
  intros Hhost. unfold main_mitm_handler_with.
  apply String.eqb_neq in Hhost.
  unfold bind at 1. rewrite Hhost. cbn [negb]. cbv beta iota zeta.
  unfold modify at 1. cbv beta iota zeta. unfold bind at 1, get at 1.
  cbn [juicebox_addr set_juicebox]. rewrite addr_eqb_refl. reflexivity.
Qed.

Lemma add_error_keeps_device (cfg : config) (w : world) :
  juicebox_addr (snd (add_error cfg w)) = juicebox_addr w.
Proof.
  destruct (clock w) as [| t [| t' rest]] eqn:Hc.
  - unfold add_error, now, bind. rewrite Hc. reflexivity.
  - unfold add_error, now, bind, get, modify. rewrite Hc. reflexivity.
  - rewrite (add_error_unfold cfg w t t' rest Hc). reflexivity.
Qed.

Section KeepsDevice.
Context (cfg : config) (j : option addr).

Local Abbreviation J := (fun w : world => juicebox_addr w = j).
Local Abbreviation T := (fun (_ : exn) (_ : list effect) => True).
Local Ltac jb := intros; simpl; assumption.

Lemma jb_add_error : preserves J T (add_error cfg).
Proof. intros w Hw. split; [rewrite add_error_keeps_device; exact Hw | trivial]. Qed.

Lemma jb_dgram_send (d : payload) (a : addr) : preserves J T (dgram_send d a).
Proof.
  unfold dgram_send.
  apply pres_bind; [apply pres_get | intros w0].
  destruct (negb (dgram w0)); [apply pres_raise; [trivial | discriminate] |].
  apply pres_bind; [apply pres_wait_event; [jb | trivial] | intros ev].
  destruct ev; try apply pres_stuck;
    try (apply pres_raise; [trivial | discriminate]);
    try (apply pres_modify; jb);
    (apply pres_bind; [apply pres_modify; jb | intros _];
     apply pres_raise; [trivial | discriminate]).
Qed.

Lemma jb_send_attempt (d : payload) (a : addr) : preserves J T (send_attempt cfg d a).
Proof.
  unfold send_attempt.
  apply pres_catch.
  - apply pres_with_lock; [jb | jb | trivial |].
    apply pres_catch.
    + apply pres_bind; [apply jb_dgram_send | intros; apply pres_ret].
    + intros e k H. destruct e; try discriminate. injection H as <-.
      apply pres_bind; [apply jb_add_error | intros _].
      apply pres_bind; [apply pres_modify; jb | intros _; apply pres_ret].
  - intros e k H. destruct e; try discriminate. injection H as <-.
    apply pres_bind; [apply jb_add_error | intros _; apply pres_ret].
Qed.

Lemma jb_send_data_with (connect : M unit) (d : payload) (a : addr) (b : Z) :
  preserves J T connect -> preserves J T (send_data_with cfg connect d a b).
Proof.
  intros Hc. apply pres_send_data_with;
    first [exact Hc | apply jb_add_error | apply jb_send_attempt | jb | (intros; exact I)].
Qed.

Lemma jb_call_local (p : payload) : preserves J T (call_local cfg p).
Proof. apply pres_call_local; try jb; intros; exact I. Qed.

Lemma jb_on_forward_error dir (dest : M addr) e k :
  preserves J T dest -> on_forward_error cfg dir dest e = Some k -> preserves J T k.
Proof.
  intros Hd. apply pres_on_forward_error;
    first [exact Hd | apply jb_add_error | jb | (intros; exact I)].
Qed.

End KeepsDevice.

(** Claim C8.  For a datagram whose source host differs from the cloud's,
    the handler sets [self._juicebox_addr] to its source, whatever address
    was learned before (no latch), and that is the address it is left at
    when the forward it makes does not itself change the learned address
    (true of [send_data] whenever it does not reconnect: a reconnect runs the
    receive loop in place, which learns from later datagrams by the same rule). *)
Theorem handler_sets_device (cfg : config) (send : payload -> addr -> Z -> M unit) :
  (forall p to b w, juicebox_addr (snd (send p to b w)) = juicebox_addr w) ->
  forall (d : payload) (a : addr) (w : world),
  host a <> host (enelx_addr cfg) ->
  juicebox_addr (snd (main_mitm_handler_with cfg send (Some d) (Some a) w)) = Some a.
Proof.
  intros Hsend d a w Hhost. rewrite (handler_device_branch cfg send d a w Hhost).
  match goal with |- juicebox_addr (snd (?m _)) = _ =>
    enough (HP : preserves (fun w => juicebox_addr w = Some a)
                   (fun _ _ => True) m) by exact (proj1 (HP (set_juicebox (Some a) w) eq_refl)) end.
  apply pres_bind; [apply jb_call_local | intros d'].
  destruct (negb (ignore_remote cfg)); [| apply pres_ret].
  apply pres_catch.
  - intros w1 Hw1. split; [rewrite Hsend; exact Hw1 | trivial].
  - intros e k Hk. eapply jb_on_forward_error; [apply pres_ret | exact Hk].
Qed.

Lemma send_data_unfueled_keeps_device (cfg : config) p to b w :
  juicebox_addr (snd (send_data cfg 0 p to b w)) = juicebox_addr w.
Proof.
  refine (proj1 (jb_send_data_with cfg (juicebox_addr w) (connect cfg 0) p to b _ w eq_refl)).
  intros w' Hw'. split; [exact Hw' | discriminate].
Qed.

Lemma handler_sets_device_witness :
  host device_addr <> host (enelx_addr (cfg_with 3 3 10)) /\
  juicebox_addr (snd (main_mitm_handler_with (cfg_with 3 3 10) (send_data (cfg_with 3 3 10) 0)
    (Some (Data "x")) (Some device_addr)
    (mkWorld true (Some device_addr') 0 [] false false false [] [ESendOk] []))) = Some device_addr.
Proof.
  split; [vm_compute; discriminate |].
  apply (handler_sets_device (cfg_with 3 3 10) (send_data (cfg_with 3 3 10) 0)).
  - intros. apply send_data_unfueled_keeps_device.
  - vm_compute. discriminate.
Defined.

Lemma error_window_breaker_witness :
  (let w' := snd (add_errors (cfg_with 3 2 10) 2
                    (fresh_world true [1000; 1000; 2000; 2000] [])) in
   fst (add_errors (cfg_with 3 2 10) 2 (fresh_world true [1000; 1000; 2000; 2000] [])) = Ok tt /\
   error_count w' = Z.of_nat 2 /\
   forall fuel, mitm_loop (cfg_with 3 2 10) (S (S fuel)) w' =
     (Exc (ChildProcessError (TooManyErrors (Z.of_nat 2) 10)), w')) /\
  (forall c lb, fst (mitm_loop (cfg_with 3 3 10) 2 (fresh_world true [0; 0] [ERecvTimeout]))
                <> Exc (ChildProcessError (TooManyErrors c lb))).
Proof.
  split.
  - apply (proj1 (error_window_breaker (cfg_with 3 2 10)) 2%nat
             (fresh_world true [1000; 1000; 2000; 2000] []) 1000 2000);
      [reflexivity | reflexivity | reflexivity
      | repeat constructor; lia | simpl; lia | simpl; lia].
  - apply (proj2 (error_window_breaker (cfg_with 3 3 10)) 2%nat
             (fresh_world true [0; 0] [ERecvTimeout])); [simpl; lia |].
    intros t c Hin. vm_compute in Hin. destruct Hin as [H | []].
    injection H as _ <-. simpl. lia.
Defined.

(** ** [_connect] and the receive loop it awaits *)

(** Claim C6 (divergence).  With MAX_CONNECT_ATTEMPT = 1, [connect()]'s own
    loop binds once and exits holding a socket, yet the call makes a second
    bind and raises "unable to start": [await self._mitm_loop()] runs the
    receive loop in place, the loop loses the transport, records faults and
    reconnects from inside, and the nested call's failure escapes. *)
Theorem connect_binds_past_limit (fuel : nat) :
  dgram (snd (connect_while (cfg_with 1 10 10) 1 1 rebind_world)) = true /\
  connect (cfg_with 1 10 10) (S (S (S (S fuel)))) rebind_world =
    (Exc (ChildProcessError UnableToStart),
     mkWorld false None 3 [0; 5000; 10000] false false false [] []
       [OBind true false; OSleep 5000; OFault 0 1; OFault 5000 2;
        OBind true false; OFault 10000 3; OSleep 5000]).
Proof. vm_compute. split; reflexivity. Qed.

(** ** The socket lock *)

Section LockDiscipline.
Context (cfg : config).

Local Abbreviation T := (fun (_ : exn) (_ : list effect) => True).
Local Ltac lock_field := intros; unfold lock_inv_with, lock_inv in *; simpl; tauto.
Local Ltac lock_side :=
  first [ lock_field | intros; exact I | intros; discriminate ].

Lemma lq_bind_get {A} (I : world -> Prop) (k : world -> M A) :
  (forall w, I w -> preserves I T (k w)) -> preserves I T (bind get k).
Proof. intros H w Hw. exact (H w Hw w Hw). Qed.

Lemma lq_emit (q : bool -> bool -> bool) e w :
  lock_ok e = true -> lock_inv_with q w -> lock_inv_with q (emit e w).
Proof.
  intros He [Hl Hq]. split; [| exact Hq].
  unfold lock_inv in *. simpl. rewrite forallb_app, Hl. simpl. rewrite He. reflexivity.
Qed.

Lemma lq_add_error (q : bool -> bool -> bool) : preserves (lock_inv_with q) T (add_error cfg).
Proof.
  intros w Hw. split; [| trivial].
  destruct (clock w) as [| t [| t' rest]] eqn:Hc.
  - unfold add_error, now, bind. rewrite Hc. exact Hw.
  - unfold add_error, now, bind, get, modify. rewrite Hc.
    unfold lock_inv_with, lock_inv in *. simpl. exact Hw.
  - rewrite (add_error_unfold cfg w t t' rest Hc). apply lq_emit; [reflexivity |].
    unfold lock_inv_with, lock_inv in *. simpl. exact Hw.
Qed.

Lemma lq_dgram_bind (q : bool -> bool -> bool) :
  (forall h o, q h o = true -> h || o = true) -> preserves (lock_inv_with q) T dgram_bind.
Proof.
  intros Hq. unfold dgram_bind.
  apply pres_bind; [apply pres_wait_event; lock_side | intros ev].
  apply pres_bind_get. intros w Hw.
  assert (Hok : lock_ok (OBind (holding w) (lock_other w)) = true)
    by (apply Hq, (proj2 Hw)).
  destruct ev; unfold modify, raise, stuck, bind; simpl; split; trivial;
    first [ exact Hw | exact (lq_emit q _ w Hok Hw)
          | assert (H := lq_emit q _ w Hok Hw); lock_field ].
Qed.

Lemma lq_dgram_send (q : bool -> bool -> bool) d a :
  (forall h o, q h o = true -> h = true) -> preserves (lock_inv_with q) T (dgram_send d a).
Proof.
  intros Hq. unfold dgram_send. apply lq_bind_get. intros w0 Hw0.
  assert (Hok : forall p to, lock_ok (OSend p to (holding w0)) = true)
    by (intros; simpl; apply (Hq _ (lock_other w0)), (proj2 Hw0)).
  destruct (negb (dgram w0)); [apply pres_raise; lock_side |].
  apply pres_bind; [apply pres_wait_event; lock_side | intros ev].
  destruct ev; try apply pres_stuck;
    try (apply pres_raise; lock_side);
    try (apply pres_modify; intros; apply lq_emit; [apply Hok | assumption]);
    (apply pres_bind; [apply pres_modify; intros; apply lq_emit; [apply Hok | assumption]
                      | intros _; apply pres_raise; lock_side]).
Qed.

Lemma lock_with_lock {A} (m : M A) :
  preserves (lock_inv_with (fun h _ => h)) T m ->
  preserves (lock_inv_with (fun _ _ => true)) T (with_lock m).
Proof.
  intros Hm. unfold with_lock.
  apply pres_bind; [apply pres_get | intros w0].
  apply pres_bind.
  { destruct (lock_other w0); [apply pres_await_point; lock_side | apply pres_ret]. }
  intros _ w Hw. unfold bind, modify. cbv beta iota.
  assert (Hh : lock_inv_with (fun h _ => h) (set_lock true false w)) by lock_field.
  destruct (Hm _ Hh) as [Hw' _].
  destruct (m (set_lock true false w)) as [r w']. simpl in *.
  split; [lock_field | trivial].
Qed.

Lemma lock_send_attempt d a : preserves (lock_inv_with (fun _ _ => true)) T (send_attempt cfg d a).
Proof.
  unfold send_attempt. apply pres_catch.
  - apply lock_with_lock. apply pres_catch.
    + apply pres_bind; [apply lq_dgram_send; intros h o H; exact H | intros; apply pres_ret].
    + intros e k H. destruct e; try discriminate. injection H as <-.
      apply pres_bind; [apply lq_add_error | intros _].
      apply pres_bind; [apply pres_modify; lock_field | intros _; apply pres_ret].
  - intros e k H. destruct e; try discriminate. injection H as <-.
    apply pres_bind; [apply lq_add_error | intros _; apply pres_ret].
Qed.

Lemma lock_connect_bind : preserves (lock_inv_with (fun _ _ => true)) T connect_bind.
Proof.
  intros w Hw.
  change (connect_bind w) with
    ((if holding w || lock_other w then dgram_bind else with_lock dgram_bind) w).
  destruct (holding w || lock_other w) eqn:E.
  - assert (Hw' : lock_inv_with (fun h o => h || o) w) by (split; [apply Hw | exact E]).
    destruct (lq_dgram_bind (fun h o => h || o) (fun h o H => H) w Hw') as [H1 _].
    split; [split; [apply H1 | reflexivity] | trivial].
  - apply lock_with_lock; [| exact Hw].
    apply lq_dgram_bind. intros h o H. rewrite H. reflexivity.
Qed.

Lemma lock_mitm_loop_connect (fuel : nat) :
  preserves (lock_inv_with (fun _ _ => true)) T (mitm_loop cfg fuel) /\
  preserves (lock_inv_with (fun _ _ => true)) T (connect cfg fuel).
Proof.
  apply pres_mitm_loop_connect;
    first [ apply lq_add_error | apply lock_connect_bind | apply lock_send_attempt
          | intros; apply lq_emit; [reflexivity | assumption] | lock_side ].
Qed.

End LockDiscipline.

(** Claim C9 (as the code has it).  Every datagram transmission of the relay
    ([OSend _ _ true]) is made while this task holds the shared socket lock,
    but a bind is only guaranteed to be made while the lock is held by
    someone: [_connect] acquires the lock for the bind when it is free, and
    when [locked()] is already true (the lock possibly held by another task
    with a send in flight) it binds without acquiring it.  This holds for
    every run of the receive loop, of [connect()] and of [send_data] from a
    state whose log satisfies it. *)
Theorem lock_discipline (cfg : config) (fuel : nat) (d : payload) (a : addr) (b : Z)
    (w : world) :
  lock_inv w ->
  lock_inv (snd (mitm_loop cfg fuel w)) /\ lock_inv (snd (connect cfg fuel w)) /\
  lock_inv (snd (send_data cfg fuel d a b w)).
Proof.
  intros Hw.
  assert (Hw' : lock_inv_with (fun _ _ => true) w) by (split; [exact Hw | reflexivity]).
  destruct (lock_mitm_loop_connect cfg fuel) as [Hl Hc].
  assert (Hs : preserves (lock_inv_with (fun _ _ => true)) (fun _ _ => True)
                 (send_data cfg fuel d a b)).
  { unfold send_data. apply pres_send_data_with;
      first [ exact Hc | apply lq_add_error | apply lock_send_attempt
            | intros; apply lq_emit; [reflexivity | assumption]
            | intros; unfold lock_inv_with, lock_inv in *; simpl; tauto
            | intros; exact I ]. }
  split; [apply (proj1 (Hl w Hw')) | split; [apply (proj1 (Hc w Hw')) | apply (proj1 (Hs w Hw'))]].
Qed.

Lemma lock_discipline_witness :
  lock_inv contended_world /\
  lock_inv (snd (mitm_loop (cfg_with 1 10 10) 3 contended_world)) /\
  lock_inv (snd (connect (cfg_with 1 10 10) 3 contended_world)) /\
  lock_inv (snd (send_data (cfg_with 1 10 10) 3 (Data "x") cloud_addr 100 contended_world)).
Proof.
  split; [reflexivity |].
  apply (lock_discipline (cfg_with 1 10 10) 3 (Data "x") cloud_addr 100 contended_world).
  reflexivity.
Defined.

(** Claim C9 (divergence).  From a state with no socket in which another
    task holds the socket lock, [connect()] binds at once without holding
    the lock itself. *)
Lemma connect_binds_without_lock :
  holding contended_world = false /\ lock_other contended_world = true /\
  out (snd (connect (cfg_with 1 10 10) 3 contended_world)) = [OBind false true; OSleep 5000].
Proof. vm_compute. repeat split. Qed.

(** ** [send_data] against its specification *)

Lemma send_attempt_transmit (cfg : config) d a w :
  send_attempt cfg d a w =
  match transmit cfg d a w with
  | (Ok o, w') => (Ok (is_sent o), w')
  | (Exc e, w') => (Exc e, w')
  | (Stuck, w') => (Stuck, w')
  end.
Proof.
  unfold send_attempt, transmit, catch, with_lock, bind, get, modify, ret.
  cbv beta iota zeta.
  repeat (match goal with
          | |- context [match ?m ?x with (_, _) => _ end] =>
              let r := fresh "r" in let w' := fresh "w" in
              destruct (m x) as [r w']
          | |- context [match ?r with Ok _ => _ | Exc _ => _ | Stuck => _ end] =>
              is_var r; destruct r
          | |- context [match ?e with TransportClosed => _ | _ => _ end] =>
              is_var e; destruct e
          | |- context [if lock_other ?x then _ else _] => destruct (lock_other x)
          | |- context [match ?u with tt => _ end] => is_var u; destruct u
          end; cbv beta iota zeta); reflexivity.
Qed.

Lemma send_while_sent (cfg : config) c d a b n k w :
  send_while cfg c d a b n true k w = (Ok true, w).
Proof. destruct n; reflexivity. Qed.

Lemma send_loop_spec (cfg : config) c d a b (n : nat) :
  forall k w, k + Z.of_nat n = SEND_DATA_RETRIES + 1 ->
  bind (send_while cfg c d a b n false k)
       (fun sent => if negb sent then raise (ChildProcessError UnableToSend) else ret tt) w =
  spec_attempts cfg c d a b n w.
Proof.
  induction n as [| n IH]; intros k w Hk; [reflexivity |].
  cbn [send_while spec_attempts].
  replace (k <=? SEND_DATA_RETRIES) with true
    by (symmetry; apply Z.leb_le; unfold SEND_DATA_RETRIES in *; lia).
  cbn [negb andb].
  unfold spec_attempt, bind, get, ret in *. cbv beta iota zeta in *.
  assert (Hk' : k + 1 + Z.of_nat n = SEND_DATA_RETRIES + 1) by lia.
  destruct (negb (dgram w)); [destruct (c w) as [[[] | e |] w1] | set (w1 := w)];
    cbv beta iota zeta; try reflexivity;
    rewrite send_attempt_transmit;
    destruct (transmit cfg d a w1) as [[o | e |] w2]; cbv beta iota zeta; try reflexivity;
    destruct (sleep (Z.max b 100) w2) as [[[] | e |] w3]; cbv beta iota zeta; try reflexivity;
    (destruct o; cbn [is_sent negb];
     [rewrite send_while_sent; reflexivity | apply IH, Hk' | apply IH, Hk']).
Qed.

(** Claim C5 (as the code has it).  [send_data] behaves exactly as
    [send_data_spec]: at most SEND_DATA_RETRIES attempts, stopping at the
    first success; each reconnects first when no socket is held, and an
    exception of the reconnect propagates at once; transport closed records
    a fault, drops the socket and retries; a timeout records a fault and
    retries; any other transmission error propagates at once, with no sleep
    and no "unable to send"; every attempt ending sent, closed or timed out
    is followed by a sleep of [max(minDelay, 0.1 s)]; all attempts unsent
    raise "unable to send". *)
Theorem send_data_refines_spec (cfg : config) (fuel : nat) d a b w :
  send_data cfg fuel d a b w = send_data_spec cfg (connect cfg fuel) d a b w.
Proof. unfold send_data, send_data_with, send_data_spec. apply send_loop_spec. reflexivity. Qed.

(** Claim C5 (divergence).  A transmission refused by the peer (ECONNREFUSED)
    is neither retried nor followed by the sleep, and no "unable to send" is
    raised: the [OSError] propagates out of [send_data] at once. *)
Lemma send_data_propagates_refused :
  fst (send_data (cfg_with 3 10 10) 0 (Data "x") cloud_addr 100 (held_socket_world [ESendErr 111]))
    = Exc (OSError 111) /\
  out (snd (send_data (cfg_with 3 10 10) 0 (Data "x") cloud_addr 100
              (held_socket_world [ESendErr 111])))
    = [OSend (Data "x") cloud_addr true].
Proof. vm_compute. split; reflexivity. Qed.

(** ** The message codec: round trip *)

Lemma strip_some (pre l r : list ascii) : strip pre l = Some r -> l = pre ++ r.
Proof.
  revert l. induction pre as [| c pre IH]; intros l H; simpl in H.
  - injection H as <-. reflexivity.
  - destruct l as [| x l]; [discriminate |].
    destruct (Ascii.eqb c x) eqn:E; [| discriminate].
    apply Ascii.eqb_eq in E as <-. simpl. f_equal. apply IH, H.
Qed.

Lemma span_eq (p : ascii -> bool) (l a b : list ascii) : span p l = (a, b) -> l = a ++ b.
Proof.
  revert a b. induction l as [| c l IH]; intros a b H; simpl in H.
  - injection H as <- <-. reflexivity.
  - destruct (p c).
    + destruct (span p l) as [a' b'] eqn:E. injection H as <- <-.
      simpl. f_equal. apply IH, eq_refl.
    + injection H as <- <-. reflexivity.
Qed.

Lemma ascii_list_eqb_eq (l1 l2 : list ascii) : ascii_list_eqb l1 l2 = true -> l1 = l2.
Proof.
  revert l2. induction l1 as [| c l1 IH]; intros [| c' l2] H; simpl in H;
    try discriminate; [reflexivity |].
  apply andb_prop in H as [Hc Hl]. apply Ascii.eqb_eq in Hc as <-. f_equal. apply IH, Hl.
Qed.

Lemma split_on_nonempty (sep : ascii) (l : list ascii) : split_on sep l <> [].
Proof.
  destruct l as [| c l]; simpl; [discriminate |].
  destruct (Ascii.eqb c sep); [discriminate |]. destruct (split_on sep l); discriminate.
Qed.

Lemma join_split (sep : ascii) (l : list ascii) : join sep (split_on sep l) = l.
Proof.
  induction l as [| c l IH]; [reflexivity |]. simpl.
  destruct (Ascii.eqb c sep) eqn:E.
  - apply Ascii.eqb_eq in E as ->.
    destruct (split_on sep l) as [| x xs] eqn:Es; [destruct (split_on_nonempty sep l Es) |].
    rewrite <- IH. reflexivity.
  - destruct (split_on sep l) as [| x xs] eqn:Es; [destruct (split_on_nonempty sep l Es) |].
    rewrite <- IH. destruct xs as [| y ys]; reflexivity.
Qed.

Lemma token_str_split (l : list (list ascii)) : map token_str (map split_token l) = l.
Proof.
  induction l as [| t l IH]; [reflexivity |]. simpl. rewrite IH. f_equal.
  unfold split_token. destruct (span is_alpha t) as [k v] eqn:E.
  symmetry. exact (span_eq _ _ _ _ E).
Qed.

Lemma firstn_payload (P x : list ascii) :
  List.length x = 5%nat -> firstn (List.length (P ++ x) - 5) (P ++ x) = P.
Proof.
  intros Hx. rewrite length_app, Hx, Nat.add_sub, firstn_app, Nat.sub_diag, firstn_all.
  simpl. apply app_nil_r.
Qed.

Lemma checksum_section_some ck p term r cs :
  checksum_section ck p term r = Some cs ->
  r = chars "!" ++ cs ++ [term] /\ ck p = cs /\ List.length cs = 3%nat.
Proof.
  unfold checksum_section. intros H.
  destruct (strip (chars "!") r) as [r' |] eqn:E; [| discriminate].
  apply strip_some in E as ->.
  destruct r' as [| c1 [| c2 [| c3 [| t [| ? ?]]]]]; try discriminate.
  destruct (Ascii.eqb t term) eqn:Et; [| discriminate].
  destruct (ascii_list_eqb (ck p) [c1; c2; c3]) eqn:Ec; [| discriminate].
  injection H as <-. apply Ascii.eqb_eq in Et as ->. apply ascii_list_eqb_eq in Ec.
  repeat split; auto.
Qed.

Lemma build_parse_command ck s c : parse_command ck s = Some c -> build ck (Command c) = s.
Proof.
  unfold parse_command. intros H.
  destruct (strip (chars "CMD") s) as [r1 |] eqn:E1; [| discriminate].
  destruct (span is_digit r1) as [dh r2] eqn:E2.
  destruct (strip (chars "A") r2) as [r3 |] eqn:E3; [| discriminate].
  destruct (span is_digit r3) as [amps r4] eqn:E4.
  destruct (strip (chars "M") r4) as [r5 |] eqn:E5; [| discriminate].
  destruct (span is_digit r5) as [off r6] eqn:E6.
  destruct (strip (chars "C") r6) as [r7 |] eqn:E7; [| discriminate].
  destruct (span is_digit r7) as [cc r8] eqn:E8.
  destruct (strip (chars "S") r8) as [r9 |] eqn:E9; [| discriminate].
  destruct (span is_digit r9) as [sq r10] eqn:E10.
  destruct (_ && _); [| discriminate].
  destruct (checksum_section _ _ _ r10) as [cs |] eqn:E11; [| discriminate].
  injection H as <-.
  apply strip_some in E1, E3, E5, E7, E9.
  apply span_eq in E2, E4, E6, E8, E10.
  apply checksum_section_some in E11 as (E11 & Eck & Elen).
  set (c := mkCommand (firstn 1 dh) (skipn 1 dh) amps off cc sq cs).
  assert (HP : command_payload c = chars "CMD" ++ dh ++ chars "A" ++ amps ++ chars "M" ++
                 off ++ chars "C" ++ cc ++ chars "S" ++ sq).
  { unfold command_payload, c. cbn [cmd_dow cmd_hhmm cmd_amps cmd_offline cmd_c cmd_seq].
    rewrite (app_assoc (firstn 1 dh)), firstn_skipn. reflexivity. }
  assert (Hs : s = command_payload c ++ chars "!" ++ cs ++ chars "$").
  { rewrite HP. subst. repeat rewrite <- app_assoc. reflexivity. }
  rewrite Hs in Eck. rewrite firstn_payload in Eck
    by (simpl; rewrite length_app, Elen; reflexivity).
  transitivity (command_payload c ++ chars "!" ++ ck (command_payload c) ++ chars "$");
    [reflexivity |].
  rewrite Eck. symmetry. exact Hs.
Qed.

Lemma build_parse_status ck s st : parse_status ck s = Some st -> build ck (Status st) = s.
Proof.
  unfold parse_status. intros H.
  destruct (span is_digit s) as [serial r1] eqn:E1.
  destruct (strip (chars ":") r1) as [r2 |] eqn:E2; [| discriminate].
  destruct (span _ r2) as [body r3] eqn:E3.
  destruct (_ && _); [| discriminate].
  destruct (checksum_section _ _ _ r3) as [cs |] eqn:E4; [| discriminate].
  injection H as <-.
  apply span_eq in E1, E3. apply strip_some in E2.
  apply checksum_section_some in E4 as (E4 & Eck & Elen).
  set (st := mkStatus serial (map split_token (split_on "," body)) cs).
  assert (HP : status_payload st = serial ++ chars ":" ++ body).
  { unfold status_payload, st. cbn [st_serial st_tokens].
    rewrite token_str_split, join_split. reflexivity. }
  assert (Hs : s = status_payload st ++ chars "!" ++ cs ++ chars ":").
  { rewrite HP. subst. repeat rewrite <- app_assoc. reflexivity. }
  rewrite Hs in Eck. rewrite firstn_payload in Eck
    by (simpl; rewrite length_app, Elen; reflexivity).
  transitivity (status_payload st ++ chars "!" ++ ck (status_payload st) ++ chars ":");
    [reflexivity |].
  rewrite Eck. symmetry. exact Hs.
Qed.

(** Claim C1.  Whatever the checksum function, every wire string that
    parses (a command in the legacy or the widened variant, or a status)
    is rebuilt by [build] exactly, character for character. *)
Theorem build_parse (checksum_computed : list ascii -> list ascii) (s : list ascii)
    (m : message) :
  parse checksum_computed s = Some m -> build checksum_computed m = s.
Proof.
  unfold parse. intros H.
  destruct (parse_command checksum_computed s) as [c |] eqn:Ec.
  - injection H as <-. apply build_parse_command, Ec.
  - destruct (parse_status checksum_computed s) as [st |] eqn:Es; [| discriminate].
    injection H as <-. apply build_parse_status, Es.
Qed.

Lemma build_parse_witness :
  (exists m, parse test_checksum (chars "CMD41325A0040M040C006S638!5N5$") = Some m /\
             build test_checksum m = chars "CMD41325A0040M040C006S638!5N5$") /\
  (exists m, parse test_checksum (chars "CMD62210A20M18C006S006!31Y$") = Some m /\
             build test_checksum m = chars "CMD62210A20M18C006S006!31Y$") /\
  (exists m, parse test_checksum (chars "0910042001260513476122621631:v09u,s627,F10,u01254993,V2414,L00004555804,S01,T08,M0040,C0040,m0040,t29,i75,e00000,f5999,r61,b000,B0000000!55M:") = Some m /\
             build test_checksum m = chars "0910042001260513476122621631:v09u,s627,F10,u01254993,V2414,L00004555804,S01,T08,M0040,C0040,m0040,t29,i75,e00000,f5999,r61,b000,B0000000!55M:").
Proof.
  split; [| split];
    (eexists; split; [vm_compute; reflexivity |];
     apply build_parse; vm_compute; reflexivity).
Defined.

(** ** Further properties of the relay *)

(** *** Invariants of world components the relay only touches through the
    setters and [_add_error]

    An invariant kept by every record update except those of the fault
    record, and by [_add_error], is kept by the whole relay. *)

Section Frame.
Context (cfg : config) (Inv : world -> Prop).

Hypothesis fr_dgram : forall b w, Inv w -> Inv (set_dgram b w).
Hypothesis fr_juicebox : forall a w, Inv w -> Inv (set_juicebox a w).
Hypothesis fr_lock : forall h o w, Inv w -> Inv (set_lock h o w).
Hypothesis fr_in_handler : forall b w, Inv w -> Inv (set_in_handler b w).
Hypothesis fr_env : forall es w, Inv w -> Inv (set_env es w).
Hypothesis fr_emit : forall e w, Inv w -> Inv (emit e w).
Local Abbreviation T := (fun (_ : exn) (_ : list effect) => True).
Hypothesis fr_add_error : preserves Inv T (add_error cfg).

Local Ltac fr := intros; first [ apply fr_dgram | apply fr_juicebox | apply fr_lock
  | apply fr_in_handler | apply fr_env | apply fr_emit ]; assumption.

Lemma fr_dgram_bind : preserves Inv T dgram_bind.
Proof.
  unfold dgram_bind.
  apply pres_bind; [apply pres_wait_event; [fr | trivial] | intros ev].
  apply pres_bind; [apply pres_get | intros w0].
  destruct ev; try apply pres_stuck.
  - apply pres_modify. intros w Hw. apply fr_dgram, fr_emit, Hw.
  - apply pres_bind; [apply pres_modify; fr | intros _].
    apply pres_raise; [trivial | discriminate].
Qed.

Lemma fr_connect_bind : preserves Inv T connect_bind.
Proof.
  unfold connect_bind, locked.
  apply pres_bind; [apply pres_bind; [apply pres_get | intros; apply pres_ret] | intros l].
  destruct l; [apply fr_dgram_bind |].
  apply pres_with_lock; [fr | fr | trivial | apply fr_dgram_bind].
Qed.

Lemma fr_dgram_send (d : payload) (a : addr) : preserves Inv T (dgram_send d a).
Proof.
  unfold dgram_send.
  apply pres_bind; [apply pres_get | intros w0].
  destruct (negb (dgram w0)); [apply pres_raise; [trivial | discriminate] |].
  apply pres_bind; [apply pres_wait_event; [fr | trivial] | intros ev].
  destruct ev; try apply pres_stuck;
    try (apply pres_raise; [trivial | discriminate]);
    try (apply pres_modify; fr);
    (apply pres_bind; [apply pres_modify; fr | intros _];
     apply pres_raise; [trivial | discriminate]).
Qed.

Lemma fr_send_attempt (d : payload) (a : addr) : preserves Inv T (send_attempt cfg d a).
Proof.
  unfold send_attempt.
  apply pres_catch.
  - apply pres_with_lock; [fr | fr | trivial |].
    apply pres_catch.
    + apply pres_bind; [apply fr_dgram_send | intros; apply pres_ret].
    + intros e k H. destruct e; try discriminate. injection H as <-.
      apply pres_bind; [apply fr_add_error | intros _].
      apply pres_bind; [apply pres_modify; fr | intros _; apply pres_ret].
  - intros e k H. destruct e; try discriminate. injection H as <-.
    apply pres_bind; [apply fr_add_error | intros _; apply pres_ret].
Qed.

Lemma fr_mitm_loop_connect (fuel : nat) :
  preserves Inv T (mitm_loop cfg fuel) /\ preserves Inv T (connect cfg fuel).
Proof.
  apply (pres_mitm_loop_connect cfg); try fr; try (intros; exact I).
  - apply fr_add_error.
  - apply fr_connect_bind.
  - apply fr_send_attempt.
Qed.


End Frame.

(** *** The fault record stays consistent *)

Lemma SS_app_inv {A} (R : A -> A -> Prop) (l1 l2 : list A) :
  StronglySorted R (l1 ++ l2) ->
  StronglySorted R l1 /\ StronglySorted R l2 /\ Forall (fun x => Forall (R x) l2) l1.
Proof.
  induction l1 as [| x l1 IH]; simpl; intros H.
  - split; [constructor | split; [exact H | constructor]].
  - apply StronglySorted_inv in H as [H Hx]. destruct (IH H) as (H1 & H2 & H3).
    apply Forall_app in Hx as [Hx1 Hx2].
    split; [constructor; assumption | split; [exact H2 | constructor; assumption]].
Qed.

Lemma SS_app {A} (R : A -> A -> Prop) (l1 l2 : list A) :
  StronglySorted R l1 -> StronglySorted R l2 -> Forall (fun x => Forall (R x) l2) l1 ->
  StronglySorted R (l1 ++ l2).
Proof.
  induction l1 as [| x l1 IH]; simpl; intros H1 H2 H3; [exact H2 |].
  apply StronglySorted_inv in H1 as [H1 Hx]. inversion H3; subst.
  constructor; [apply IH; assumption | apply Forall_app; split; assumption].
Qed.

Lemma SS_filter {A} (R : A -> A -> Prop) (p : A -> bool) (l : list A) :
  StronglySorted R l -> StronglySorted R (filter p l).
Proof.
  induction l as [| x l IH]; simpl; intros H; [constructor |].
  apply StronglySorted_inv in H as [H Hx].
  destruct (p x); [constructor; [apply IH, H |] | apply IH, H].
  apply Forall_forall. intros y Hy. apply filter_In in Hy as [Hy _].
  rewrite Forall_forall in Hx. apply Hx, Hy.
Qed.

Lemma record_ok_add_error (cfg : config) :
  preserves (fun w => clock w = [] \/ record_ok w) (fun _ _ => True) (add_error cfg).
Proof.
  intros w Hw. split; [| intros; exact I].
  destruct (clock w) as [| t [| t' rest]] eqn:Hc.
  - unfold add_error, now, bind. rewrite Hc. left; exact Hc.
  - unfold add_error, now, bind, get, modify. rewrite Hc. left; reflexivity.
  - rewrite (add_error_unfold cfg w t t' rest Hc). cbn zeta. right.
    destruct Hw as [Hw | [_ Hs]]; [congruence |]. rewrite Hc in Hs. split; [reflexivity |]. simpl.
    replace (error_timestamps w ++ t :: t' :: rest)
      with ((error_timestamps w ++ [t]) ++ t' :: rest) in Hs
      by (rewrite <- app_assoc; reflexivity).
    apply SS_app_inv in Hs as (H1 & H2 & H3).
    apply StronglySorted_inv in H2 as [H2 _].
    apply SS_app; [apply SS_filter, H1 | exact H2 |].
    apply Forall_forall. intros x Hx. apply filter_In in Hx as [Hx _].
    rewrite Forall_forall in H3. specialize (H3 x Hx). inversion H3; assumption.
Qed.

(** [_add_error] is the only writer of [self._error_count] and
    [self._error_timestamp_list].  If the count is the length of the list and
    the list followed by the clock readings still to come is sorted (the
    clock never goes back), then after [_mitm_loop] or [_connect] the same
    holds, unless the modelled clock ran out of readings. *)
Theorem relay_keeps_record (cfg : config) (fuel : nat) (w : world) :
  record_ok w ->
  (clock (snd (mitm_loop cfg fuel w)) = [] \/ record_ok (snd (mitm_loop cfg fuel w))) /\
  (clock (snd (connect cfg fuel w)) = [] \/ record_ok (snd (connect cfg fuel w))).
Proof.
  intros Hw.
  destruct (fr_mitm_loop_connect cfg (fun w => clock w = [] \/ record_ok w)) with (fuel := fuel)
    as [Hl Hc]; try (intros; exact H); try apply record_ok_add_error.
  split; [apply (Hl w (or_intror Hw)) | apply (Hc w (or_intror Hw))].
Qed.

Lemma relay_keeps_record_witness :
  record_ok (fresh_world true [0; 1000; 2000; 3000] [ERecvTimeout; EBindOk]) /\
  (clock (snd (mitm_loop (cfg_with 3 10 10) 3
                (fresh_world true [0; 1000; 2000; 3000] [ERecvTimeout; EBindOk]))) = [] \/
   record_ok (snd (mitm_loop (cfg_with 3 10 10) 3
                (fresh_world true [0; 1000; 2000; 3000] [ERecvTimeout; EBindOk])))).
Proof.
  assert (H : record_ok (fresh_world true [0; 1000; 2000; 3000] [ERecvTimeout; EBindOk])).
  { split; [reflexivity |]. simpl. repeat constructor; lia. }
  split; [exact H |].
  exact (proj1 (relay_keeps_record (cfg_with 3 10 10) 3 _ H)).
Defined.

(** *** The receive loop after a failure *)












(** *** [_connect] *)

(** With no socket, once the fault count has reached
    [MAX_ERROR_COUNT] (or when [MAX_CONNECT_ATTEMPT] is not positive),
    [_connect] makes no bind attempt and no sleep: it raises the
    "unable to start" failure at once and leaves the world unchanged. *)
Theorem connect_gives_up_at_budget (cfg : config) (f : nat) (w : world) :
  dgram w = false ->
  (MAX_ERROR_COUNT cfg <= error_count w \/ MAX_CONNECT_ATTEMPT cfg <= 0) ->
  connect cfg (S f) w = (Exc (ChildProcessError UnableToStart), w).
Proof.
  intros Hd Hb. simpl. unfold connect_with.
  assert (Hw : connect_while cfg (Z.to_nat (MAX_CONNECT_ATTEMPT cfg)) 1 w = (Ok tt, w)).
  { destruct (Z.to_nat (MAX_CONNECT_ATTEMPT cfg)) as [| k] eqn:Ek; [reflexivity |].
    simpl. unfold bind, get. rewrite Hd. cbn [negb andb].
    destruct Hb as [Hb | Hb].
    - replace (error_count w <? MAX_ERROR_COUNT cfg) with false
        by (symmetry; apply Z.ltb_ge; exact Hb).
      destruct (1 <=? MAX_CONNECT_ATTEMPT cfg); reflexivity.
    - exfalso. destruct (MAX_CONNECT_ATTEMPT cfg); simpl in Ek; try discriminate; lia. }
  unfold bind at 1. rewrite Hw. unfold bind, get. rewrite Hd. reflexivity.
Qed.

Lemma connect_gives_up_at_budget_witness :
  connect (cfg_with 3 2 10) 1 (mkWorld false None 2 [0; 1] false false false [] [EBindOk] []) =
  (Exc (ChildProcessError UnableToStart),
   mkWorld false None 2 [0; 1] false false false [] [EBindOk] []).
Proof.
  apply (connect_gives_up_at_budget (cfg_with 3 2 10) 0); [reflexivity | left; vm_compute; discriminate].
Defined.





(** With no socket and the lock free, a successful first bind is
    made under the lock and followed by the 5 s sleep; [_connect] then runs
    the receive loop in place, with the socket held, and raises [TypeError]
    should the loop ever return. *)
Theorem connect_bind_then_loop (cfg : config) (f : nat) (w : world) (es : list event) :
  1 <= MAX_CONNECT_ATTEMPT cfg -> error_count w < MAX_ERROR_COUNT cfg ->
  dgram w = false -> holding w = false -> lock_other w = false ->
  env w = EBindOk :: es -> hd_error es <> Some EExpire ->
  exists w',
    connect cfg (S f) w = (mitm_loop cfg f ;; raise TypeError) w' /\
    dgram w' = true /\ holding w' = false /\ env w' = es /\
    out w' = out w ++ [OBind true false; OSleep 5000].
Proof.
  intros Hm Hc Hd Hh Hl He Hes. simpl. unfold connect_with.
  destruct (Z.to_nat (MAX_CONNECT_ATTEMPT cfg)) as [| k] eqn:Ek; [lia |].
  apply Z.leb_le in Hm. apply Z.ltb_lt in Hc.
  destruct w as [dg jb ec ts ih hd lo cl ev ou]; cbn in *; subst.
  simpl. cbv beta iota zeta delta [bind get]. cbn [dgram error_count negb andb].
  rewrite Hm, Hc. cbn [andb].
  destruct k as [| k]; destruct es as [| [] es]; try (exfalso; apply Hes; reflexivity);
    cbv -[mitm_loop app]; eexists; (split; [reflexivity |]); repeat split;
    rewrite <- ?app_assoc; reflexivity.
Qed.

Lemma connect_bind_then_loop_witness :
  exists w',
    connect (cfg_with 3 10 10) 1 (fresh_world false [] [EBindOk]) =
    (mitm_loop (cfg_with 3 10 10) 0 ;; raise TypeError) w' /\
    dgram w' = true /\ holding w' = false /\ env w' = [] /\
    out w' = [] ++ [OBind true false; OSleep 5000].
Proof.
  apply (connect_bind_then_loop (cfg_with 3 10 10) 0 (fresh_world false [] [EBindOk]) []);
    first [reflexivity | discriminate | (vm_compute; reflexivity)].
Defined.

(** *** [send_data] *)

(** With the socket held and the lock free, a first transmission
    that succeeds is made under the lock, once, and followed by one sleep of
    [max(blocking_time, 0.1 s)]; [send_data] then returns. *)
Theorem send_data_first_attempt (cfg : config) (fuel : nat) (d : payload) (a : addr) (b : Z)
    (w : world) (es : list event) :
  dgram w = true -> holding w = false -> lock_other w = false ->
  env w = ESendOk :: es -> hd_error es <> Some EExpire ->
  send_data cfg fuel d a b w =
  (Ok tt, set_env es (emit (OSleep (Z.max b 100)) (emit (OSend d a true) w))).
Proof.
  intros Hd Hhd Hl He Hes. unfold send_data.
  destruct w as [dg jb ec ts ih hd lo cl ev ou]; cbn in *; subst.
  destruct es as [| [] es]; try (exfalso; apply Hes; reflexivity); reflexivity.
Qed.

Lemma send_data_first_attempt_witness :
  send_data (cfg_with 3 10 10) 0 (Data "x") cloud_addr 50
    (mkWorld true None 0 [] false false false [] [ESendOk] []) =
  (Ok tt, set_env [] (emit (OSleep (Z.max 50 100)) (emit (OSend (Data "x") cloud_addr true)
            (mkWorld true None 0 [] false false false [] [ESendOk] [])))).
Proof.
  apply (send_data_first_attempt (cfg_with 3 10 10) 0 (Data "x") cloud_addr 50
           (mkWorld true None 0 [] false false false [] [ESendOk] []) []);
    first [reflexivity | discriminate].
Defined.

(** When all three transmissions time out, [send_data] keeps the
    socket (a timeout does not reconnect), records a fault and sleeps after
    each attempt, and raises the "unable to send" failure. *)
Theorem send_data_three_timeouts (cfg : config) (fuel : nat) (d : payload) (a : addr) (b : Z)
    (w : world) (es : list event) (t1 t2 t3 t4 t5 t6 : Z) (rest : list Z) :
  dgram w = true -> holding w = false -> lock_other w = false ->
  env w = [ESendTimeout; ESendTimeout; ESendTimeout] ++ es -> hd_error es <> Some EExpire ->
  clock w = t1 :: t2 :: t3 :: t4 :: t5 :: t6 :: rest ->
  let r := send_data cfg fuel d a b w in
  fst r = Exc (ChildProcessError UnableToSend) /\ dgram (snd r) = true /\
  exists c1 c2 c3,
    out (snd r) = out w ++ [OFault t1 c1; OSleep (Z.max b 100); OFault t3 c2; OSleep (Z.max b 100);
                            OFault t5 c3; OSleep (Z.max b 100)].
Proof.
  intros Hd Hh Hl He Hes Hcl r. subst r. unfold send_data.
  destruct w as [dg jb ec ts ih hd lo cl ev ou]; cbn in *; subst.
  destruct es as [| [] es]; try (exfalso; apply Hes; reflexivity);
    cbv -[app]; (split; [reflexivity |]); (split; [reflexivity |]);
    do 3 eexists; repeat rewrite <- app_assoc; reflexivity.
Qed.

Lemma send_data_three_timeouts_witness :
  let r := send_data (cfg_with 3 10 10) 0 (Data "x") cloud_addr 100
             (mkWorld true None 0 [] false false false [1; 1; 2; 2; 3; 3]
                [ESendTimeout; ESendTimeout; ESendTimeout] []) in
  fst r = Exc (ChildProcessError UnableToSend) /\ dgram (snd r) = true /\
  exists c1 c2 c3,
    out (snd r) = [] ++ [OFault 1 c1; OSleep (Z.max 100 100); OFault 2 c2;
                         OSleep (Z.max 100 100); OFault 3 c3; OSleep (Z.max 100 100)].
Proof.
  apply (send_data_three_timeouts (cfg_with 3 10 10) 0 (Data "x") cloud_addr 100
           (mkWorld true None 0 [] false false false [1; 1; 2; 2; 3; 3]
              [ESendTimeout; ESendTimeout; ESendTimeout] [])
           [] 1 1 2 2 3 3 []);
    first [reflexivity | discriminate].
Defined.

(** *** [_main_mitm_handler] *)

Lemma handler_cloud_branch (cfg : config) (send : payload -> addr -> Z -> M unit)
    (d : payload) (j : addr) (w : world) :
  juicebox_addr w = Some j -> addr_eqb (enelx_addr cfg) j = false ->
  main_mitm_handler_with cfg send (Some d) (Some (enelx_addr cfg)) w =
  (if negb (ignore_remote cfg) then
     d' <- call_remote cfg d ;;
     catch (send d' j 100) (on_forward_error cfg "client" (read_juicebox j))
   else ret tt) w.
Proof.
  intros Hj Hne. unfold main_mitm_handler_with.
  rewrite String.eqb_refl. cbn [negb]. cbv beta iota zeta delta [bind ret get].
  rewrite Hj, Hne, addr_eqb_refl. reflexivity.
Qed.

(** A device datagram (source host other than the cloud's) with
    forwarding on, the socket held and the lock free: the handler learns the
    device address, calls the local transform once and sends its result to
    the cloud under the lock, sleeps 0.1 s, and records no fault. *)
Theorem handler_forwards_device (cfg : config) (fuel : nat) (d : payload) (a : addr)
    (w : world) (es : list event) :
  host a <> host (enelx_addr cfg) -> ignore_remote cfg = false ->
  dgram w = true -> holding w = false -> lock_other w = false ->
  env w = ESendOk :: es -> hd_error es <> Some EExpire ->
  let r := main_mitm_handler cfg fuel (Some d) (Some a) w in
  fst r = Ok tt /\ juicebox_addr (snd r) = Some a /\ dgram (snd r) = true /\
  error_count (snd r) = error_count w /\
  out (snd r) = out w ++ [OLocal d; OSend (local_mitm_handler cfg d) (enelx_addr cfg) true;
                          OSleep 100].
Proof.
  intros Hh Hi Hd Hhd Hl He Hes r. subst r. unfold main_mitm_handler, send_data.
  rewrite handler_device_branch by exact Hh. rewrite Hi.
  destruct w as [dg jb ec ts ih hd lo cl ev ou]; cbn in *; subst.
  destruct es as [| [] es]; try (exfalso; apply Hes; reflexivity);
  cbv -[app]; repeat split; repeat rewrite <- app_assoc; reflexivity.
Qed.

Lemma handler_forwards_device_witness :
  let r := main_mitm_handler (cfg_with 3 10 10) 0 (Some (Data "x")) (Some device_addr)
             (mkWorld true None 0 [] false false false [] [ESendOk] []) in
  fst r = Ok tt /\ juicebox_addr (snd r) = Some device_addr /\ dgram (snd r) = true /\
  error_count (snd r) = 0 /\
  out (snd r) = [] ++ [OLocal (Data "x"); OSend (Data "x") cloud_addr true; OSleep 100].
Proof.
  apply (handler_forwards_device (cfg_with 3 10 10) 0 (Data "x") device_addr
           (mkWorld true None 0 [] false false false [] [ESendOk] []) []);
    first [reflexivity | discriminate | (vm_compute; discriminate)].
Defined.

(** A datagram from the cloud's exact address, once a device address
    (different from the cloud's) is learned, with forwarding on, the socket
    held and the lock free: the handler calls the remote transform once and
    sends its result to the learned device under the lock, sleeps 0.1 s,
    records no fault, and keeps the learned address. *)
Theorem handler_forwards_cloud (cfg : config) (fuel : nat) (d : payload) (j : addr)
    (w : world) (es : list event) :
  juicebox_addr w = Some j -> addr_eqb (enelx_addr cfg) j = false ->
  ignore_remote cfg = false ->
  dgram w = true -> holding w = false -> lock_other w = false ->
  env w = ESendOk :: es -> hd_error es <> Some EExpire ->
  let r := main_mitm_handler cfg fuel (Some d) (Some (enelx_addr cfg)) w in
  fst r = Ok tt /\ juicebox_addr (snd r) = Some j /\ dgram (snd r) = true /\
  error_count (snd r) = error_count w /\
  out (snd r) = out w ++ [ORemote d; OSend (remote_mitm_handler cfg d) j true;
                          OSleep 100].
Proof.
  intros Hj Hne Hi Hd Hhd Hl He Hes r. subst r. unfold main_mitm_handler, send_data.
  rewrite (handler_cloud_branch _ _ _ j) by assumption. rewrite Hi.
  destruct w as [dg jb ec ts ih hd lo cl ev ou]; cbn in *; subst.
  destruct es as [| [] es]; try (exfalso; apply Hes; reflexivity);
  cbv -[app]; repeat split; repeat rewrite <- app_assoc; reflexivity.
Qed.

Lemma handler_forwards_cloud_witness :
  let r := main_mitm_handler (cfg_with 3 10 10) 0 (Some (Data "x")) (Some cloud_addr)
             (mkWorld true (Some device_addr) 0 [] false false false [] [ESendOk] []) in
  fst r = Ok tt /\ juicebox_addr (snd r) = Some device_addr /\ dgram (snd r) = true /\
  error_count (snd r) = 0 /\
  out (snd r) = [] ++ [ORemote (Data "x"); OSend (Data "x") device_addr true; OSleep 100].
Proof.
  apply (handler_forwards_cloud (cfg_with 3 10 10) 0 (Data "x") device_addr
           (mkWorld true (Some device_addr) 0 [] false false false [] [ESendOk] []) []);
    first [reflexivity | discriminate].
Defined.

(** A datagram from the cloud's host is dropped with no effect at
    all (no transform call, no transmission, no change of state) unless it
    comes from the learned device address, or from the cloud's exact address
    with a device learned and forwarding on; in particular before any device
    is learned. *)
Theorem handler_drops_cloud_host (cfg : config) (fuel : nat) (d : payload) (a : addr)
    (w : world) :
  host a = host (enelx_addr cfg) ->
  (forall j, juicebox_addr w = Some j ->
     addr_eqb a j = false /\
     (ignore_remote cfg = true \/ addr_eqb a (enelx_addr cfg) = false)) ->
  main_mitm_handler cfg fuel (Some d) (Some a) w = (Ok tt, w).
Proof.
  intros Hh Hj. unfold main_mitm_handler, main_mitm_handler_with.
  rewrite Hh, String.eqb_refl. cbn [negb]. cbv beta iota zeta delta [bind ret get].
  destruct (juicebox_addr w) as [j|] eqn:Ej; [|reflexivity].
  destruct (Hj j eq_refl) as [Ha [Hi | Hn]]; rewrite Ha.
  - rewrite Hi. cbn. destruct (addr_eqb a (enelx_addr cfg)); reflexivity.
  - rewrite Hn. reflexivity.
Qed.

Lemma handler_drops_cloud_host_witness :
  main_mitm_handler (cfg_with 3 10 10) 0 (Some (Data "x")) (Some (mkAddr "54.161.147.91" 9999))
    (mkWorld true (Some device_addr) 0 [] false false false [] [] []) =
  (Ok tt, mkWorld true (Some device_addr) 0 [] false false false [] [] []).
Proof.
  apply (handler_drops_cloud_host (cfg_with 3 10 10) 0 (Data "x") (mkAddr "54.161.147.91" 9999)).
  - reflexivity.
  - intros j H. injection H as <-. split; [reflexivity | right; reflexivity].
Defined.

(** With [ignore_remote] set, a device datagram is passed to the
    local transform and nothing else happens: the device address is learned
    and nothing is sent. *)
Theorem handler_ignore_remote_device (cfg : config) (fuel : nat) (d : payload) (a : addr)
    (w : world) :
  host a <> host (enelx_addr cfg) -> ignore_remote cfg = true ->
  hd_error (env w) <> Some EExpire ->
  main_mitm_handler cfg fuel (Some d) (Some a) w =
  (Ok tt, emit (OLocal d) (set_juicebox (Some a) w)).
Proof.
  intros Hh Hi Hes. unfold main_mitm_handler.
  rewrite handler_device_branch by exact Hh. rewrite Hi.
  destruct w as [dg jb ec ts ih hd lo cl ev ou]; cbn in *.
  destruct ev as [| [] es]; try (exfalso; apply Hes; reflexivity); reflexivity.
Qed.

Lemma handler_ignore_remote_device_witness :
  let cfg := mkConfig (mkAddr "0.0.0.0" 8047) cloud_addr true (fun p => p) (fun p => p)
               errorcode_linux 3 10 10 in
  main_mitm_handler cfg 0 (Some (Data "x")) (Some device_addr) (fresh_world true [] []) =
  (Ok tt, emit (OLocal (Data "x")) (set_juicebox (Some device_addr) (fresh_world true [] []))).
Proof.
  intros cfg.
  apply (handler_ignore_remote_device cfg 0 (Data "x") device_addr (fresh_world true [] []));
    first [reflexivity | discriminate | (vm_compute; discriminate)].
Defined.

(** When the forward of a device datagram fails with an [OSError]
    whose errno has a name, [send_data] does not retry and does not sleep;
    the handler passes the diagnostic naming the cloud address and the errno
    name to the local transform, records a fault and returns normally. *)
Theorem handler_reports_oserror (cfg : config) (fuel : nat) (d : payload) (a : addr)
    (w : world) (n : Z) (name : string) (es : list event) (t t' : Z) (rest : list Z) :
  host a <> host (enelx_addr cfg) -> ignore_remote cfg = false ->
  dgram w = true -> holding w = false -> lock_other w = false ->
  env w = ESendErr n :: es -> hd_error es <> Some EExpire ->
  errorcode cfg n = Some name -> clock w = t :: t' :: rest ->
  let r := main_mitm_handler cfg fuel (Some d) (Some a) w in
  fst r = Ok tt /\
  exists c, error_count (snd r) = c /\
    out (snd r) = out w ++ [OLocal d; OSend (local_mitm_handler cfg d) (enelx_addr cfg) true;
                            OLocal (Diag "server" (enelx_addr cfg) name); OFault t c].
Proof.
  intros Hh Hi Hd Hhd Hl He Hes Hn Hc r. subst r. unfold main_mitm_handler, send_data.
  rewrite handler_device_branch by exact Hh. rewrite Hi.
  destruct cfg as [jp en ir lm rm ecode mc me lb]; cbn in *.
  destruct w as [dg jb ec ts ih hd lo cl ev ou]; cbn in *; subst.
  destruct es as [| [] es]; try (exfalso; apply Hes; reflexivity);
  cbv -[app]; rewrite Hn; cbv -[app];
  (split; [reflexivity | eexists; split; [reflexivity |]]);
  repeat rewrite <- app_assoc; reflexivity.
Qed.

Lemma handler_reports_oserror_witness :
  let r := main_mitm_handler (cfg_with 3 10 10) 0 (Some (Data "x")) (Some device_addr)
             (mkWorld true None 0 [] false false false [7; 7] [ESendErr 111] []) in
  fst r = Ok tt /\
  exists c, error_count (snd r) = c /\
    out (snd r) = [] ++ [OLocal (Data "x"); OSend (Data "x") cloud_addr true;
                         OLocal (Diag "server" cloud_addr "ECONNREFUSED"); OFault 7 c].
Proof.
  apply (handler_reports_oserror (cfg_with 3 10 10) 0 (Data "x") device_addr
           (mkWorld true None 0 [] false false false [7; 7] [ESendErr 111] [])
           111 "ECONNREFUSED" [] 7 7 []);
    first [reflexivity | discriminate | (vm_compute; discriminate)].
Defined.

(** [_connect] with no socket and the fault budget spent raises at once
    (the lemma behind the handler's treatment of a failed reconnect). *)
Lemma connect_spent_budget (cfg : config) (f : nat) (w : world) :
  dgram w = false -> MAX_ERROR_COUNT cfg <= error_count w ->
  connect cfg (S f) w = (Exc (ChildProcessError UnableToStart), w).
Proof.
  intros Hd Hb. simpl. unfold connect_with.
  assert (Hw : connect_while cfg (Z.to_nat (MAX_CONNECT_ATTEMPT cfg)) 1 w = (Ok tt, w)).
  { destruct (Z.to_nat (MAX_CONNECT_ATTEMPT cfg)) as [| k]; [reflexivity |].
    simpl. unfold bind, get. rewrite Hd. cbn [negb andb].
    replace (error_count w <? MAX_ERROR_COUNT cfg) with false
      by (symmetry; apply Z.ltb_ge; exact Hb).
    destruct (1 <=? MAX_CONNECT_ATTEMPT cfg); reflexivity. }
  unfold bind at 1. rewrite Hw. unfold bind, get. rewrite Hd. reflexivity.
Qed.

(** When the forward of a device datagram loses the transport and the
    fault this records brings the count to [MAX_ERROR_COUNT], the retry's
    [_connect] raises "unable to start" at once (no bind, no sleep).
    [ChildProcessError] is an [OSError], so the handler's [except OSError]
    catches the fatal failure, and [errno.errorcode[e.errno]] with
    [e.errno = None] raises [KeyError]: the handler ends with [KeyError], no
    diagnostic reaches the local transform and no further fault is
    recorded. *)
Theorem handler_masks_unable_to_start (cfg : config) (f : nat) (d : payload) (a : addr)
    (w : world) (es : list event) (t t' : Z) (rest : list Z) :
  host a <> host (enelx_addr cfg) -> ignore_remote cfg = false ->
  dgram w = true -> holding w = false -> lock_other w = false ->
  env w = ESendClosed :: es -> hd_error es <> Some EExpire ->
  clock w = t :: t' :: rest ->
  Forall (fun el => (t' - ERROR_LOOKBACK_MIN cfg * 60 * 1000 <? el) = true)
    (error_timestamps w ++ [t]) ->
  MAX_ERROR_COUNT cfg <= Z.of_nat (List.length (error_timestamps w)) + 1 ->
  let r := main_mitm_handler cfg (S f) (Some d) (Some a) w in
  fst r = Exc KeyError /\ dgram (snd r) = false /\
  error_count (snd r) = Z.of_nat (List.length (error_timestamps w)) + 1 /\
  out (snd r) = out w ++ [OLocal d; OSend (local_mitm_handler cfg d) (enelx_addr cfg) true;
                          OFault t (Z.of_nat (List.length (error_timestamps w)) + 1);
                          OSleep 100].
Proof.
  intros Hh Hi Hd Hhd Hl He Hes Hc Hall Hmax r. subst r. unfold main_mitm_handler, send_data.
  rewrite handler_device_branch by exact Hh. rewrite Hi.
  destruct w as [dg jb ec ts ih hd lo cl ev ou];
  cbn in Hd, Hhd, Hl, He, Hc, Hall, Hmax; subst.
  destruct es as [| [] es]; try (exfalso; apply Hes; reflexivity);
  cbv -[app add_error connect];
  rewrite (add_error_unfold cfg _ t t' rest) by reflexivity; erewrite filter_keep_all by exact Hall;
  cbv -[app connect List.length Z.of_nat];
  (rewrite (connect_spent_budget cfg f);
   [| reflexivity | cbn; rewrite length_app; cbn; lia]);
  cbv -[app List.length Z.of_nat Z.add];
  rewrite ?length_app, ?Nat2Z.inj_add; cbn [List.length Z.of_nat];
  repeat split; repeat rewrite <- app_assoc; reflexivity.
Qed.

Lemma handler_masks_unable_to_start_witness :
  let r := main_mitm_handler (cfg_with 3 3 10) 1 (Some (Data "x")) (Some device_addr)
             (mkWorld true None 2 [500; 800] true false false [1000; 1000]
                [ESendClosed] []) in
  fst r = Exc KeyError /\ dgram (snd r) = false /\
  error_count (snd r) = Z.of_nat (List.length [500; 800]) + 1 /\
  out (snd r) = [] ++ [OLocal (Data "x"); OSend (Data "x") cloud_addr true;
                       OFault 1000 (Z.of_nat (List.length [500; 800]) + 1); OSleep 100].
Proof.
  apply (handler_masks_unable_to_start (cfg_with 3 3 10) 0 (Data "x") device_addr
           (mkWorld true None 2 [500; 800] true false false [1000; 1000] [ESendClosed] [])
           [] 1000 1000 []);
    first [reflexivity | discriminate | (vm_compute; discriminate)
          | repeat constructor | (cbn; lia)].
Defined.

(** When the forward of a cloud datagram to the learned device fails
    with a named [OSError], the handler passes the diagnostic naming the
    device address and the errno name to the local transform (not the
    remote one), records a fault and returns normally. *)
Theorem handler_reports_client_oserror (cfg : config) (fuel : nat) (d : payload) (j : addr)
    (w : world) (n : Z) (name : string) (es : list event) (t t' : Z) (rest : list Z) :
  juicebox_addr w = Some j -> addr_eqb (enelx_addr cfg) j = false ->
  ignore_remote cfg = false ->
  dgram w = true -> holding w = false -> lock_other w = false ->
  env w = ESendErr n :: es -> hd_error es <> Some EExpire ->
  errorcode cfg n = Some name -> clock w = t :: t' :: rest ->
  let r := main_mitm_handler cfg fuel (Some d) (Some (enelx_addr cfg)) w in
  fst r = Ok tt /\
  exists c, error_count (snd r) = c /\
    out (snd r) = out w ++ [ORemote d; OSend (remote_mitm_handler cfg d) j true;
                            OLocal (Diag "client" j name); OFault t c].
Proof.
  intros Hj Hne Hi Hd Hhd Hl He Hes Hn Hc r. subst r. unfold main_mitm_handler, send_data.
  rewrite (handler_cloud_branch _ _ _ j) by assumption. rewrite Hi.
  destruct cfg as [jp en ir lm rm ecode mc me lb]; cbn in *.
  destruct w as [dg jb ec ts ih hd lo cl ev ou]; cbn in *; subst.
  destruct es as [| [] es]; try (exfalso; apply Hes; reflexivity);
  cbv -[app]; rewrite Hn; cbv -[app];
  (split; [reflexivity | eexists; split; [reflexivity |]]);
  repeat rewrite <- app_assoc; reflexivity.
Qed.

Lemma handler_reports_client_oserror_witness :
  let r := main_mitm_handler (cfg_with 3 10 10) 0 (Some (Data "x")) (Some cloud_addr)
             (mkWorld true (Some device_addr) 0 [] false false false [7; 7] [ESendErr 113] []) in
  fst r = Ok tt /\
  exists c, error_count (snd r) = c /\
    out (snd r) = [] ++ [ORemote (Data "x"); OSend (Data "x") device_addr true;
                         OLocal (Diag "client" device_addr "EHOSTUNREACH"); OFault 7 c].
Proof.
  apply (handler_reports_client_oserror (cfg_with 3 10 10) 0 (Data "x") device_addr
           (mkWorld true (Some device_addr) 0 [] false false false [7; 7] [ESendErr 113] [])
           113 "EHOSTUNREACH" [] 7 7 []);
    first [reflexivity | discriminate].
Defined.

(** *** [close] *)

(** [close()] always leaves the relay without a socket, and closing
    twice is the same as closing once: the second call finds no socket and
    does nothing (no second sleep). *)
Theorem close_idempotent (w : world) :
  dgram (snd (close w)) = false /\ (close ;; close) w = close w.
Proof.
  destruct w as [dg jb ec ts ih hd lo cl ev ou]; destruct dg; [| split; reflexivity].
  destruct ev as [| [] es]; try (split; reflexivity). cbn. destruct ih; split; reflexivity.
Qed.

(** *** Fatal failures inside a handler dispatch *)

Section NoUnableToSend.
Context (cfg : config).

Local Abbreviation UTS := (ChildProcessError UnableToSend).




















End NoUnableToSend.








